(** * sgcache.web.core: request dispatch and passthrough

    A shallow embedding of [src/sgcache/web/core.py] (Python 2, Flask,
    requests, werkzeug) and the properties of its dispatcher
    ([json_api]), its upstream client ([passthrough]) and its binary
    proxy ([proxy]).

    Python objects are modelled by the tree type [pyval]; exceptions by
    [exn]; the effects of the module (the log, [g.api3_payload],
    [log_globals.skip_http_log], calls on [http_session], calls into the
    registered handlers and their generators) by a state-and-exception
    monad [M] over [state]. *)

From Stdlib Require Import ZArith Ascii String List Bool Lia DecimalString Sorted Permutation.
From stdpp Require Import base option list gmap strings.

Set Warnings "-register-all".

Local Open Scope Z_scope.
Local Open Scope string_scope.
Local Open Scope list_scope.

(** ** Python values *)

(** Keys of a [dict].  [json.loads] only builds string keys; line 60 of
    [passthrough] can add the integer key [-1] when [payload['params']]
    is itself a dict. *)
Inductive pykey :=
| KStr (s : string)
| KInt (z : Z).

(** What is passed on to [flask.Response(...)]: the body is either a
    text or the chunk iterator [iter_content(8192)] over the upstream
    content. *)
Inductive body :=
| BodyText (s : string)
| BodyStream (content : string).

Record Response := mkResponse {
  response : body;
  status : Z;
  mimetype : option string;
  headers : list (string * string);
  direct_passthrough : bool
}.

(** Python objects that flow through this module.  Numbers are integers
    (JSON floats are outside the model).  A [PList] is a list or a
    tuple: indexing, [len], truth, [in], [isinstance(_, (list, tuple))]
    and [json.dumps] treat the two alike.  The operation that does tell
    a tuple from a list is [%] with a single value on its right; the
    module applies it to values that [json.loads] built, which hold no
    tuple, and, at line 180, to the values that a generator yields:
    those are told apart in [gen]. *)
Inductive pyval :=
| PNone
| PBool (b : bool)
| PInt (z : Z)
| PStr (s : string)
| PList (l : list pyval)
| PDict (d : list (pykey * pyval))
| PResponse (r : Response).

(** Modelled from the spec: the exception classes [Fault] and
    [Passthrough] of [sgcache/exceptions.py], which is not under src/.
    A Fault is a domain-level error with a [code] (an integer) and a
    message (a string, read as [args[0]]); a Passthrough is the signal
    of a handler that the request is to be delegated upstream, with the
    reason the log prints.  [cls] is the name of the class that was
    raised ([e.__class__.__name__]). *)
Inductive signal :=
| Fault (cls : string) (code : Z) (message : string)
| Passthrough (cls : string) (message : string).

(** Exceptions.  [ReturnPassthroughError] is a subclass of
    [ReturnResponse] (lines 43-47); both keep their [args].
    [OtherError] stands for any exception this module never catches. *)
Inductive exn :=
| ReturnResponse (args : list pyval)
| ReturnPassthroughError (args : list pyval)
| Signal (sg : signal)
| KeyError
| TypeError
| IndexError
| ValueError
| AttributeError
| StopIteration
| NameError (name : string)
| OtherError (cls : string).

Definition pykey_eqb (a b : pykey) : bool :=
  match a, b with
  | KStr s, KStr t => String.eqb s t
  | KInt x, KInt y => Z.eqb x y
  | _, _ => false
  end.

(** [d.get(k)] on the association list of a dict: the first binding. *)
Fixpoint dict_get (d : list (pykey * pyval)) (k : pykey) : option pyval :=
  match d with
  | [] => None
  | (k', v) :: d' => if pykey_eqb k' k then Some v else dict_get d' k
  end.

(** [d[k] = v]: replace the binding in place, or add one. *)
Fixpoint dict_set (d : list (pykey * pyval)) (k : pykey) (v : pyval)
  : list (pykey * pyval) :=
  match d with
  | [] => [(k, v)]
  | (k', v') :: d' =>
      if pykey_eqb k' k then (k', v) :: d' else (k', v') :: dict_set d' k v
  end.

(** Truth value of an object ([if params], [if entity_type], ...). *)
Definition truthy (v : pyval) : bool :=
  match v with
  | PNone => false
  | PBool b => b
  | PInt z => negb (Z.eqb z 0)
  | PStr s => negb (String.eqb s EmptyString)
  | PList l => match l with [] => false | _ => true end
  | PDict d => match d with [] => false | _ => true end
  | PResponse _ => true
  end.

Definition string_of_ascii (c : ascii) : string := String c EmptyString.

(** Position of index [i] in a sequence of [n] items, Python style:
    negative indices count from the end. *)
Definition seq_index (n : nat) (i : Z) : option nat :=
  if (Z.leb 0 i && Z.ltb i (Z.of_nat n))%bool then Some (Z.to_nat i)
  else if (Z.ltb i 0 && Z.leb 0 (Z.of_nat n + i))%bool then Some (Z.to_nat (Z.of_nat n + i))
  else None.

(** [o[k]]. *)
Definition getitem (o : pyval) (k : pykey) : exn + pyval :=
  match o, k with
  | PDict d, _ => match dict_get d k with Some v => inr v | None => inl KeyError end
  | PList l, KInt i =>
      match seq_index (length l) i with
      | Some n => match nth_error l n with Some v => inr v | None => inl IndexError end
      | None => inl IndexError
      end
  | PStr s, KInt i =>
      match seq_index (String.length s) i with
      | Some n => match String.get n s with
                  | Some c => inr (PStr (string_of_ascii c))
                  | None => inl IndexError
                  end
      | None => inl IndexError
      end
  | _, _ => inl TypeError
  end.

(** [len(o)]. *)
Definition len (o : pyval) : exn + Z :=
  match o with
  | PList l => inr (Z.of_nat (length l))
  | PDict d => inr (Z.of_nat (length d))
  | PStr s => inr (Z.of_nat (String.length s))
  | _ => inl TypeError
  end.

(** The list [l] with its last item replaced ([l[-1] = v]); [None] on
    the empty list. *)
Fixpoint set_last (l : list pyval) (v : pyval) : option (list pyval) :=
  match l with
  | [] => None
  | [_] => Some [v]
  | x :: l' => match set_last l' v with
               | Some r => Some (x :: r)
               | None => None
               end
  end.

(** [o[-1] = v], giving the object after the assignment. *)
Definition setitem_last (o : pyval) (v : pyval) : exn + pyval :=
  match o with
  | PList l => match set_last l v with
               | Some l' => inr (PList l')
               | None => inl IndexError
               end
  | PDict d => inr (PDict (dict_set d (KInt (-1)) v))
  | _ => inl TypeError
  end.

Fixpoint is_prefix (p s : string) : bool :=
  match p, s with
  | EmptyString, _ => true
  | String a p', String b s' => Ascii.eqb a b && is_prefix p' s'
  | String _ _, EmptyString => false
  end.

Fixpoint is_substring (p s : string) : bool :=
  is_prefix p s ||
  match s with
  | EmptyString => false
  | String _ s' => is_substring p s'
  end.

(** ['...' in o] for a string on the left: a key of a dict, an item of
    a list, a substring of a string; a TypeError on the other objects. *)
Definition contains_str (o : pyval) (s : string) : exn + bool :=
  match o with
  | PDict d => inr (match dict_get d (KStr s) with Some _ => true | None => false end)
  | PList l => inr (existsb (fun x => match x with PStr t => String.eqb t s | _ => false end) l)
  | PStr t => inr (is_substring s t)
  | _ => inl TypeError
  end.

Definition is_dict (v : pyval) : bool :=
  match v with PDict _ => true | _ => false end.

(** ** Headers *)

Definition lower_ascii (c : ascii) : ascii :=
  let n := nat_of_ascii c in
  if (Nat.leb 65 n && Nat.leb n 90)%bool then ascii_of_nat (n + 32) else c.

(** [str.lower()]. *)
Fixpoint lower (s : string) : string :=
  match s with
  | EmptyString => EmptyString
  | String c s' => String (lower_ascii c) (lower s')
  end.

(** werkzeug.http: the names of [_hop_by_hop_headers]. *)
Definition _hop_by_hop_headers : list string :=
  [ "connection"; "keep-alive"; "proxy-authenticate"; "proxy-authorization";
    "te"; "trailer"; "transfer-encoding"; "upgrade" ].

Definition is_hop_by_hop_header (header : string) : bool :=
  existsb (String.eqb (lower header)) _hop_by_hop_headers.

(** werkzeug.http.remove_hop_by_hop_headers: the list after the in-place
    update [headers[:] = [... if not is_hop_by_hop_header(key)]]. *)
Definition remove_hop_by_hop_headers (headers : list (string * string))
  : list (string * string) :=
  List.filter (fun kv => negb (is_hop_by_hop_header (fst kv))) headers.

(** [[(k, v) for k, v in request.headers.iteritems() if k.lower() != 'host']]. *)
Definition without_host (headers : list (string * string)) : list (string * string) :=
  List.filter (fun kv => negb (String.eqb (lower (fst kv)) "host")) headers.

(** [dict(headers)]: a later pair overrides an earlier one with the same
    key. *)
Definition dict_of_headers (headers : list (string * string)) : gmap string string :=
  list_to_map (rev headers).

(** ** The json module

    [dumps] and [loads] of Python's [json], for the values of [pyval]:
    integers only, and text whose code points are below 256.  The
    dispatcher below takes its codec from the environment; this one is
    the codec of the concrete scenarios. *)
Module json.

Definition dquote : ascii := ascii_of_nat 34.
Definition backslash : ascii := ascii_of_nat 92.

Definition string_of_Z (z : Z) : string :=
  DecimalString.NilZero.string_of_int (Z.to_int z).

Definition hex_digit (n : nat) : ascii :=
  if Nat.ltb n 10 then ascii_of_nat (48 + n) else ascii_of_nat (87 + n).

(** One character of a string literal, as [ensure_ascii] writes it. *)
Definition escape_char (c : ascii) : string :=
  let n := nat_of_ascii c in
  if Ascii.eqb c dquote then String backslash (String dquote EmptyString)
  else if Ascii.eqb c backslash then String backslash (String backslash EmptyString)
  else if Nat.eqb n 10 then String backslash "n"
  else if Nat.eqb n 13 then String backslash "r"
  else if Nat.eqb n 9 then String backslash "t"
  else if Nat.eqb n 8 then String backslash "b"
  else if Nat.eqb n 12 then String backslash "f"
  else if (Nat.leb 32 n && Nat.leb n 126)%bool then String c EmptyString
  else String backslash
         ("u00" +:+ String (hex_digit (Nat.div n 16))
                      (String (hex_digit (Nat.modulo n 16)) EmptyString)).

Fixpoint escape (s : string) : string :=
  match s with
  | EmptyString => EmptyString
  | String c s' => escape_char c +:+ escape s'
  end.

Definition quote (s : string) : string :=
  String dquote (escape s +:+ String dquote EmptyString).

Fixpoint join (sep : string) (l : list string) : string :=
  match l with
  | [] => EmptyString
  | [x] => x
  | x :: l' => x +:+ sep +:+ join sep l'
  end.

Definition dumps_key (k : pykey) : string :=
  match k with
  | KStr s => quote s
  | KInt z => quote (string_of_Z z)
  end.

(** [json.dumps(v)] with the default separators; [None] is the
    TypeError raised for an object that is not serialisable. *)
Fixpoint dumps (v : pyval) : option string :=
  match v with
  | PNone => Some "null"
  | PBool true => Some "true"
  | PBool false => Some "false"
  | PInt z => Some (string_of_Z z)
  | PStr s => Some (quote s)
  | PList l =>
      let fix items (l : list pyval) : option (list string) :=
        match l with
        | [] => Some []
        | x :: l' =>
            match dumps x, items l' with
            | Some sx, Some r => Some (sx :: r)
            | _, _ => None
            end
        end in
      match items l with
      | Some ss => Some ("[" +:+ join ", " ss +:+ "]")
      | None => None
      end
  | PDict d =>
      let fix members (d : list (pykey * pyval)) : option (list string) :=
        match d with
        | [] => Some []
        | (k, x) :: d' =>
            match dumps x, members d' with
            | Some sx, Some r => Some ((dumps_key k +:+ ": " +:+ sx) :: r)
            | _, _ => None
            end
        end in
      match members d with
      | Some ss => Some ("{" +:+ join ", " ss +:+ "}")
      | None => None
      end
  | PResponse _ => None
  end.

Definition is_ws (c : ascii) : bool :=
  let n := nat_of_ascii c in
  (Nat.eqb n 32 || Nat.eqb n 9 || Nat.eqb n 10 || Nat.eqb n 13)%bool.

Fixpoint skip_ws (s : string) : string :=
  match s with
  | String c s' => if is_ws c then skip_ws s' else s
  | EmptyString => s
  end.

Definition digit_of (c : ascii) : option Z :=
  let n := nat_of_ascii c in
  if (Nat.leb 48 n && Nat.leb n 57)%bool then Some (Z.of_nat (n - 48)) else None.

Definition hex_of (c : ascii) : option nat :=
  let n := nat_of_ascii c in
  if (Nat.leb 48 n && Nat.leb n 57)%bool then Some (n - 48)%nat
  else if (Nat.leb 97 n && Nat.leb n 102)%bool then Some (n - 87)%nat
  else if (Nat.leb 65 n && Nat.leb n 70)%bool then Some (n - 55)%nat
  else None.

(** The digits at the head of [s], read after the value [acc]. *)
Fixpoint parse_digits (acc : Z) (s : string) : Z * string :=
  match s with
  | String c s' =>
      match digit_of c with
      | Some d => parse_digits (10 * acc + d) s'
      | None => (acc, s)
      end
  | EmptyString => (acc, s)
  end.

(** A number with a fraction or an exponent is a float: not a value of
    the model. *)
Definition ends_integer (s : string) : bool :=
  match s with
  | String c _ =>
      negb (Ascii.eqb c "."%char || Ascii.eqb c "e"%char || Ascii.eqb c "E"%char)
  | EmptyString => true
  end.

Definition parse_nat (s : string) : option (Z * string) :=
  match s with
  | String c s' =>
      match digit_of c with
      | Some d =>
          let '(n, rest) := parse_digits d s' in
          if (Z.eqb d 0 && negb (String.eqb rest s'))%bool then None
          else if ends_integer rest then Some (n, rest) else None
      | None => None
      end
  | EmptyString => None
  end.

(** The body of a string literal, after its opening quote. *)
Fixpoint parse_chars (s : string) : option (string * string) :=
  match s with
  | EmptyString => None
  | String c s' =>
      if Ascii.eqb c dquote then Some (EmptyString, s')
      else if Ascii.eqb c backslash then
        match s' with
        | String e s'' =>
            let lit (x : nat) :=
              match parse_chars s'' with
              | Some (t, rest) => Some (String (ascii_of_nat x) t, rest)
              | None => None
              end in
            if Ascii.eqb e dquote then lit 34%nat
            else if Ascii.eqb e backslash then lit 92%nat
            else if Ascii.eqb e "/"%char then lit 47%nat
            else if Ascii.eqb e "n"%char then lit 10%nat
            else if Ascii.eqb e "r"%char then lit 13%nat
            else if Ascii.eqb e "t"%char then lit 9%nat
            else if Ascii.eqb e "b"%char then lit 8%nat
            else if Ascii.eqb e "f"%char then lit 12%nat
            else if Ascii.eqb e "u"%char then
              match s'' with
              | String a (String b (String h (String l s3))) =>
                  match hex_of a, hex_of b, hex_of h, hex_of l, parse_chars s3 with
                  | Some 0%nat, Some 0%nat, Some x, Some y, Some (t, rest) =>
                      Some (String (ascii_of_nat (16 * x + y)) t, rest)
                  | _, _, _, _, _ => None
                  end
              | _ => None
              end
            else None
        | EmptyString => None
        end
      else if Nat.ltb (nat_of_ascii c) 32 then None
      else
        match parse_chars s' with
        | Some (t, rest) => Some (String c t, rest)
        | None => None
        end
  end.

Inductive mode :=
| MValue
| MElems (acc : list pyval)
| MMembers (acc : list (pykey * pyval)).

Definition expect (p : string) (s : string) : option string :=
  if is_prefix p s then Some (String.substring (String.length p) (String.length s) s)
  else None.

(** Recursive descent; every call consumes a character, so the length
    of the text bounds the depth. *)
Fixpoint parse (fuel : nat) (m : mode) (s : string) : option (pyval * string) :=
  match fuel with
  | O => None
  | S fuel' =>
      match m with
      | MValue =>
          match skip_ws s with
          | EmptyString => None
          | String c s' as t =>
              if Ascii.eqb c "["%char then
                match skip_ws s' with
                | String c2 s2 =>
                    if Ascii.eqb c2 "]"%char then Some (PList [], s2)
                    else parse fuel' (MElems []) s'
                | EmptyString => None
                end
              else if Ascii.eqb c "{"%char then
                match skip_ws s' with
                | String c2 s2 =>
                    if Ascii.eqb c2 "}"%char then Some (PDict [], s2)
                    else parse fuel' (MMembers []) s'
                | EmptyString => None
                end
              else if Ascii.eqb c dquote then
                match parse_chars s' with
                | Some (x, rest) => Some (PStr x, rest)
                | None => None
                end
              else if Ascii.eqb c "-"%char then
                match parse_nat s' with
                | Some (n, rest) => Some (PInt (- n), rest)
                | None => None
                end
              else
                match expect "null" t, expect "true" t, expect "false" t with
                | Some rest, _, _ => Some (PNone, rest)
                | _, Some rest, _ => Some (PBool true, rest)
                | _, _, Some rest => Some (PBool false, rest)
                | _, _, _ =>
                    match parse_nat t with
                    | Some (n, rest) => Some (PInt n, rest)
                    | None => None
                    end
                end
          end
      | MElems acc =>
          match parse fuel' MValue s with
          | Some (v, rest) =>
              match skip_ws rest with
              | String c r =>
                  if Ascii.eqb c ","%char then parse fuel' (MElems (acc ++ [v])) r
                  else if Ascii.eqb c "]"%char then Some (PList (acc ++ [v]), r)
                  else None
              | EmptyString => None
              end
          | None => None
          end
      | MMembers acc =>
          match skip_ws s with
          | String c s' =>
              if Ascii.eqb c dquote then
                match parse_chars s' with
                | Some (k, rest) =>
                    match skip_ws rest with
                    | String c2 r2 =>
                        if Ascii.eqb c2 ":"%char then
                          match parse fuel' MValue r2 with
                          | Some (v, rest') =>
                              let acc' := dict_set acc (KStr k) v in
                              match skip_ws rest' with
                              | String c3 r3 =>
                                  if Ascii.eqb c3 ","%char
                                  then parse fuel' (MMembers acc') r3
                                  else if Ascii.eqb c3 "}"%char
                                  then Some (PDict acc', r3)
                                  else None
                              | EmptyString => None
                              end
                          | None => None
                          end
                        else None
                    | EmptyString => None
                    end
                | None => None
                end
              else None
          | EmptyString => None
          end
      end
  end.

(** [json.loads(s)]; [None] is the ValueError raised for a text that
    does not decode. *)
Definition loads (s : string) : option pyval :=
  match parse (S (String.length s)) MValue s with
  | Some (v, rest) =>
      match skip_ws rest with
      | EmptyString => Some v
      | _ => None
      end
  | None => None
  end.

End json.

(** ** The world around the module *)

(** The incoming HTTP request ([flask.request]). *)
Record Request := mkRequest {
  request_method : string;
  request_path : string;
  request_args : list (string * string);
  request_headers : list (string * string);
  request_data : string
}.

(** A call on [http_session] ([requests.Session]). *)
Record http_request := mkHttpRequest {
  rq_method : string;
  rq_url : string;
  rq_data : string;
  rq_params : list (string * string);
  rq_headers : gmap string string;
  rq_stream : bool
}.

(** What [http_session] answers: [status_code], [headers.items()] and
    the content ([text], or the chunks of [iter_content]). *)
Record http_response := mkHttpResponse {
  status_code : Z;
  response_headers : list (string * string);
  content : string
}.

(** How a suspended generator is resumed: [send(v)] ([next] is
    [send(None)]) or [throw(e)]. *)
Inductive resumption :=
| Send (v : pyval)
| Throw (e : exn).

(** A generator object, by what its body does next: finish
    (StopIteration at the caller), raise, or yield and wait.  What it
    yields is either a value that is not a tuple ([GYield]) or the
    tuple of the items [xs] ([GYieldTuple]). *)
Inductive gen :=
| GStop
| GRaise (e : exn)
| GYield (v : pyval) (k : resumption -> gen)
| GYieldTuple (xs : list pyval) (k : resumption -> gen).

(** What calling a registered method gives: a value, an exception, or a
    generator object (a Two-Phase handler; its body has not started). *)
Inductive hresult :=
| HReturn (v : pyval)
| HRaise (e : exn)
| HGenerator (c : gen).

(** A registered method, as the dispatcher sees it.  Handlers are the
    opaque collaborators of this module: only what they return, raise
    or yield is modelled.  What a handler does to the object it is
    handed (line 164 passes the very [params[1]] of [g.api3_payload]) is
    not: the handlers of this model leave their argument as it is. *)
Definition handler := pyval -> hresult.

(** Everything the module takes from outside: the [json] codec, the
    configuration, the upstream server (its answer to the [n]-th call of
    a request, or the exception [requests] raises) and the registry
    filled by [api3_method] at import time. *)
Record Env := mkEnv {
  json_loads : string -> option pyval;
  json_dumps : pyval -> option string;
  FALLBACK_SERVER : string;
  http_session : nat -> http_request -> exn + http_response;
  _api3_methods : gmap string handler;
  app_debug : bool
}.

Definition FALLBACK_URL (env : Env) : string := FALLBACK_SERVER env +:+ "/api3/json".

(** ** Log records and observable events *)

Inductive level := INFO | WARNING.

(** The chunks of the headline (lines 125-147), before formatting. *)
Inductive chunk :=
| Starting (method_name : pyval)
| On (entity_type : pyval)
| Batch (counts : list (pyval * Z))
| ByScript (script_name : pyval)
| AsUser (sudo_as_login : pyval)
| ByUser (user_login : pyval).

(** The log messages of the module, before formatting; the elapsed time
    of the completion line is left out. *)
Inductive message :=
| Headline (chunks : list chunk)
| PassingThroughUnknown (method_name : pyval) (detail : option pyval)
| ExtraYielded (x : pyval)
| FaultRaised (cls : string) (code : Z) (msg : string)
| PassingThroughSignal (method_name : pyval) (cls : string) (msg : string)
                       (detail : option pyval)
| Returned (count : option (Z * pyval)).

(** What the module does to its collaborators, in order. *)
Inductive event :=
| Post (r : http_request)
| Call (method_name : string) (method_params : pyval)
| Resume (r : resumption).

(** The mutable surroundings of a request: the stored envelope
    ([None] until line 111 assigns it), the records logged so far, the
    flag of [log_globals], and the events so far. *)
Record state := mkState {
  g_api3_payload : option pyval;
  log : list (level * message);
  skip_http_log : bool;
  trace : list event
}.

(** ** The monad of the module: state and exceptions *)

Definition M (A : Type) : Type := state -> (exn + A) * state.

Definition ret {A} (a : A) : M A := fun s => (inr a, s).

Definition raise {A} (e : exn) : M A := fun s => (inl e, s).

Definition bind {A B} (c : M A) (k : A -> M B) : M B :=
  fun s => match c s with
           | (inr a, s') => k a s'
           | (inl e, s') => (inl e, s')
           end.

Notation "'let*' x ':=' c 'in' k" := (bind c (fun x => k))
  (at level 10, x pattern, c at level 100, k at level 200).

Notation "c ';;;' k" := (bind c (fun _ => k))
  (at level 100, k at level 200, right associativity).

(** [try: c  except: h]. *)
Definition try_except {A} (c : M A) (h : exn -> M A) : M A :=
  fun s => match c s with
           | (inl e, s') => h e s'
           | r => r
           end.

(** [try: c  except: h  else: k]. *)
Definition try_except_else {A B} (c : M A) (h : exn -> M B) (k : A -> M B) : M B :=
  fun s => match c s with
           | (inl e, s') => h e s'
           | (inr a, s') => k a s'
           end.

Definition lift {A} (r : exn + A) : M A :=
  match r with
  | inl e => raise e
  | inr a => ret a
  end.

(** The state after one more log record, one more event, an assignment
    to [g.api3_payload], an assignment to [log_globals.skip_http_log]. *)
Definition add_log (s : state) (l : level) (m : message) : state :=
  mkState (g_api3_payload s) (log s ++ [(l, m)]) (skip_http_log s) (trace s).

Definition add_event (s : state) (e : event) : state :=
  mkState (g_api3_payload s) (log s) (skip_http_log s) (trace s ++ [e]).

Definition store_payload (s : state) (v : pyval) : state :=
  mkState (Some v) (log s) (skip_http_log s) (trace s).

Definition store_skip_http_log (s : state) (b : bool) : state :=
  mkState (g_api3_payload s) (log s) b (trace s).

Definition log_record (l : level) (m : message) : M unit :=
  fun s => (inr tt, add_log s l m).

Definition emit (e : event) : M unit :=
  fun s => (inr tt, add_event s e).

Definition set_g_api3_payload (v : pyval) : M unit :=
  fun s => (inr tt, store_payload s v).

(** Reading [g.api3_payload]; AttributeError while it is not set. *)
Definition get_g_api3_payload : M pyval :=
  fun s => match g_api3_payload s with
           | Some v => (inr v, s)
           | None => (inl AttributeError, s)
           end.

Definition set_skip_http_log (b : bool) : M unit :=
  fun s => (inr tt, store_skip_http_log s b).

(** A name that [core.py] neither imports nor binds: NameError. *)
Definition unbound_name {A} (name : string) : M A := raise (NameError name).

Definition is_post (e : event) : bool :=
  match e with Post _ => true | _ => false end.

(** How many calls on [http_session] the trace holds. *)
Definition posts_so_far (s : state) : nat := length (List.filter is_post (trace s)).

(** A call on [http_session]: recorded, then answered by the upstream. *)
Definition session_request (env : Env) (r : http_request) : M http_response :=
  fun s => (emit (Post r) ;;; lift (http_session env (posts_so_far s) r)) s.

Definition json_loads_M (env : Env) (text : string) : M pyval :=
  match json_loads env text with
  | Some v => ret v
  | None => raise ValueError
  end.

Definition json_dumps_M (env : Env) (v : pyval) : M string :=
  match json_dumps env v with
  | Some t => ret t
  | None => raise TypeError
  end.

(** ** passthrough (lines 50-86) *)

(** The [payload] argument.  The dict held in [g.api3_payload] is a
    mutable object: a caller may hand over that very object, and line 60
    then writes into it.  Any other argument is an object of its own
    ([None] by default). *)
Inductive payload_arg :=
| payload_obj (v : pyval)
| payload_g_api3_payload.

Definition json_content_type : pyval :=
  PList [PList [PStr "Content-Type"; PStr "application/json"]].

(** [Response(body, status, mimetype='application/json')]. *)
Definition json_Response (b : body) (st : Z) : Response :=
  mkResponse b st (Some "application/json") [] false.

(** Lines 52-55. *)
Definition passthrough_headers (req : Request) : gmap string string :=
  dict_of_headers (remove_hop_by_hop_headers (without_host (request_headers req))).

(** Line 60, [payload['params'][-1] = params]: the object [payload]
    after the assignment. *)
Definition substitute_params (payload params : pyval) : exn + pyval :=
  match getitem payload (KStr "params") with
  | inl e => inl e
  | inr slot =>
      match setitem_last slot params with
      | inl e => inl e
      | inr slot' =>
          match payload with
          | PDict d => inr (PDict (dict_set d (KStr "params") slot'))
          | _ => inr payload
          end
      end
  end.

(** Lines 62-63: the body that is sent. *)
Definition request_body (env : Env) (payload : pyval) : M string :=
  match payload with
  | PStr text => ret text
  | _ => json_dumps_M env payload
  end.

(** Lines 67-86: what [passthrough] makes of the upstream response. *)
Definition passthrough_response (env : Env) (raise_exceptions stream final : bool)
    (http_response : http_response) : exn + pyval :=
  let relayed :=
    if stream then BodyStream (content http_response)
    else BodyText (content http_response) in
  (* lines 67-72 *)
  if negb (Z.eqb (status_code http_response) 200) then
    inl (ReturnPassthroughError
           [PResponse (json_Response relayed (status_code http_response))])
  (* lines 74-79 *)
  else if (stream || final)%bool then
    inr (PResponse (json_Response relayed 200))
  (* lines 81-86 *)
  else
    match json_loads env (content http_response) with
    | None => inl ValueError
    | Some response_data =>
        match (if raise_exceptions then contains_str response_data "exception"
               else inr false) with
        | inl e => inl e
        | inr true =>
            inl (ReturnResponse
                   [PStr (content http_response); PInt 200; json_content_type])
        | inr false => inr response_data
        end
    end.

Definition passthrough (env : Env) (req : Request)
    (payload : payload_arg) (params : pyval)
    (raise_exceptions stream final : bool) : M pyval :=
  (* lines 52-55 *)
  let headers := passthrough_headers req in
  (* lines 57-58; [shared] tells whether [payload] is the stored object *)
  let* (payload, shared) :=
    match payload with
    | payload_obj PNone =>
        let* p := get_g_api3_payload in ret (p, false)
    | payload_obj v => ret (v, false)
    | payload_g_api3_payload =>
        let* p := get_g_api3_payload in
        match p with
        | PNone => ret (p, false)
        | _ => ret (p, true)
        end
    end in
  (* lines 59-60 *)
  let* payload :=
    match params with
    | PNone => ret payload
    | _ =>
        let* p := lift (substitute_params payload params) in
        (if shared then set_g_api3_payload p else ret tt) ;;;
        ret p
    end in
  (* lines 62-63 *)
  let* data := request_body env payload in
  (* line 65 *)
  let* http_response :=
    session_request env (mkHttpRequest "POST" (FALLBACK_URL env) data [] headers stream) in
  (* lines 67-86 *)
  lift (passthrough_response env raise_exceptions stream final http_response).

(** ** json_api (lines 107-229) *)

(** [(body, status, headers)], the tuple a view returns to Flask. *)
Definition view_tuple (b : string) (st : Z) (hs : pyval) : pyval :=
  PList [PStr b; PInt st; hs].

Definition malformed : pyval := view_tuple EmptyString 400 (PList []).

(** Lines 116-122, the body of the [try]: [method_name], [auth_params]
    and [method_params]. *)
Definition read_envelope (payload : pyval) : exn + (pyval * pyval * pyval) :=
  match getitem payload (KStr "method_name") with
  | inl e => inl e
  | inr method_name =>
      match getitem payload (KStr "params") with
      | inl e => inl e
      | inr params =>
          match (if truthy params then getitem params (KInt 0) else inr (PDict [])) with
          | inl e => inl e
          | inr auth_params =>
              match len params with
              | inl e => inl e
              | inr n =>
                  match (if Z.ltb 1 n then getitem params (KInt 1) else inr (PDict [])) with
                  | inl e => inl e
                  | inr method_params => inr (method_name, auth_params, method_params)
                  end
              end
          end
      end
  end.

(** [o.get(k)] as the code uses it on [method_params] and
    [auth_params]: AttributeError on an object that is not a dict. *)
Definition get (o : pyval) (k : string) : exn + pyval :=
  match o with
  | PDict d => inr (match dict_get d (KStr k) with Some v => v | None => PNone end)
  | _ => inl AttributeError
  end.

(** Equality of dict keys: [True == 1] and [False == 0]. *)
Definition hashable_eqb (a b : pyval) : option bool :=
  let num (v : pyval) : option (option Z + string) :=
    match v with
    | PNone => Some (inl None)
    | PBool b => Some (inl (Some (if b then 1 else 0)))
    | PInt z => Some (inl (Some z))
    | PStr t => Some (inr t)
    | _ => None
    end in
  match num a, num b with
  | Some (inl (Some x)), Some (inl (Some y)) => Some (Z.eqb x y)
  | Some (inl None), Some (inl None) => Some true
  | Some (inr x), Some (inr y) => Some (String.eqb x y)
  | Some _, Some _ => Some false
  | _, _ => None
  end.

(** Line 134, [batch_counts[k] = batch_counts.get(k, 0) + 1]; TypeError
    on an unhashable key. *)
Fixpoint count_up (counts : list (pyval * Z)) (k : pyval) : exn + list (pyval * Z) :=
  match counts with
  | [] => match hashable_eqb k k with
          | Some _ => inr [(k, 1)]
          | None => inl TypeError
          end
  | (k', n) :: rest =>
      match hashable_eqb k' k with
      | Some true => inr ((k', n + 1) :: rest)
      | Some false =>
          match count_up rest k with
          | inr rest' => inr ((k', n) :: rest')
          | inl e => inl e
          end
      | None => inl TypeError
      end
  end.

(** Lines 133-134. *)
Fixpoint batch_counts (counts : list (pyval * Z)) (items : list pyval)
  : exn + list (pyval * Z) :=
  match items with
  | [] => inr counts
  | x :: rest =>
      match getitem x (KStr "request_type") with
      | inl e => inl e
      | inr k =>
          match count_up counts k with
          | inl e => inl e
          | inr counts' => batch_counts counts' rest
          end
      end
  end.

Fixpoint insert_by_count (p : pyval * Z) (l : list (pyval * Z)) : list (pyval * Z) :=
  match l with
  | [] => [p]
  | q :: l' => if Z.leb (snd p) (snd q) then p :: q :: l' else q :: insert_by_count p l'
  end.

(** Line 135, [sorted(..., key=lambda x: x[1])]: stable, by ascending
    count.  (The order of the items before sorting is the hash order of
    the dict in Python; here it is the order of first occurrence.) *)
Definition sorted_by_count (l : list (pyval * Z)) : list (pyval * Z) :=
  fold_right insert_by_count [] l.

(** [v == '...']. *)
Definition eq_str (v : pyval) (t : string) : bool :=
  match v with
  | PStr x => String.eqb x t
  | _ => false
  end.

(** Lines 125-147: the chunks of the headline and the binding of the
    local [entity_type] ([None] while it is unbound). *)
Definition headline (method_name auth_params method_params : pyval)
  : exn + (list chunk * option pyval) :=
  let chunks := [Starting method_name] in
  match
    (match method_params with
     | PDict _ =>
         match get method_params "type" with
         | inl e => inl e
         | inr entity_type =>
             inr (if truthy entity_type then chunks ++ [On entity_type] else chunks,
                  Some entity_type)
         end
     | PList items =>
         if eq_str method_name "batch" then
           match batch_counts [] items with
           | inl e => inl e
           | inr counts => inr (chunks ++ [Batch (sorted_by_count counts)], None)
           end
         else inr (chunks, None)
     | _ => inr (chunks, None)
     end)
  with
  | inl e => inl e
  | inr (chunks, entity_type) =>
      match get auth_params "script_name" with
      | inl e => inl e
      | inr script_name =>
          if truthy script_name then
            match get auth_params "sudo_as_login" with
            | inl e => inl e
            | inr sudo_as_login =>
                inr (if truthy sudo_as_login
                     then chunks ++ [ByScript script_name; AsUser sudo_as_login]
                     else chunks ++ [ByScript script_name],
                     entity_type)
            end
          else
            match get auth_params "user_login" with
            | inl e => inl e
            | inr user_login =>
                inr (if truthy user_login then chunks ++ [ByUser user_login] else chunks,
                     entity_type)
            end
      end
  end.

(** Line 151, [_api3_methods[method_name]]: the keys are function names;
    a list or a dict is unhashable. *)
Definition lookup_method (env : Env) (method_name : pyval) : exn + (string * handler) :=
  match method_name with
  | PStr name =>
      match _api3_methods env !! name with
      | Some method => inr (name, method)
      | None => inl KeyError
      end
  | PList _ | PDict _ => inl TypeError
  | _ => inl KeyError
  end.

(** Lines 153-156. *)
Definition debug_detail (env : Env) (method_params : pyval) : option pyval :=
  if (app_debug env && truthy method_params)%bool then Some method_params else None.

(** [next(coroutine)] and [coroutine.send(v)], where [c] is what the
    body does once it is resumed with [r]: the value of the next [yield]
    and the generator suspended there. *)
Definition resume (c : gen) (r : resumption) : M (pyval * (resumption -> gen)) :=
  emit (Resume r) ;;;
  match c with
  | GYield v k => ret (v, k)
  | GYieldTuple xs k => ret (PList xs, k)
  | GStop => raise StopIteration
  | GRaise e => raise e
  end.

(** Lines 179-180, [for x in coroutine: log.warning(...)], on the
    generator as it stands after being resumed with [None].  The
    message is ['...%r' % x]: when [x] is a tuple, its items are the
    arguments of the format, which takes one; a tuple of one item gives
    the message of that item, any other tuple a TypeError, raised before
    [log.warning] is called. *)
Fixpoint extra_yields (c : gen) : M unit :=
  emit (Resume (Send PNone)) ;;;
  match c with
  | GYield x k =>
      log_record WARNING (ExtraYielded x) ;;;
      extra_yields (k (Send PNone))
  | GYieldTuple xs k =>
      match xs with
      | [x] =>
          log_record WARNING (ExtraYielded x) ;;;
          extra_yields (k (Send PNone))
      | _ => raise TypeError
      end
  | GStop => ret tt
  | GRaise e => raise e
  end.

(** Lines 164-180, the body of the [try]. *)
Definition run_method (env : Env) (req : Request)
    (name : string) (method : handler) (method_params : pyval) : M pyval :=
  emit (Call name method_params) ;;;
  match method method_params with
  | HReturn result => ret result
  | HRaise e => raise e
  | HGenerator coroutine =>
      let* (passthrough_params, k) := resume coroutine (Send PNone) in
      try_except_else
        (passthrough env req (payload_obj PNone) passthrough_params true false false)
        (* line 176: [sys] is looked up before [coroutine.throw] is called *)
        (fun _ => unbound_name "sys")
        (fun passthrough_results =>
           let* (result, k') := resume (k (Send passthrough_results)) (Send passthrough_results) in
           extra_yields (k' (Send PNone)) ;;;
           ret result)
  end.

(** Lines 184-210, the [except] clauses. *)
Definition on_exception (env : Env) (req : Request)
    (method_name method_params : pyval) (e : exn) : M pyval :=
  match e with
  | ReturnResponse args | ReturnPassthroughError args => ret (PList args)
  | Signal (Fault cls code msg) =>
      log_record WARNING (FaultRaised cls code msg) ;;;
      let result_data :=
        PDict [(KStr "exception", PBool true); (KStr "error_code", PInt code);
               (KStr "message", PStr msg)] in
      (* line 196 reads [res_data], not [result_data] *)
      let* res_data := unbound_name "res_data" in
      let* text := json_dumps_M env res_data in
      ret (view_tuple text 200 json_content_type)
  | Signal (Passthrough cls msg) =>
      log_record INFO
        (PassingThroughSignal method_name cls msg (debug_detail env method_params)) ;;;
      passthrough env req (payload_obj PNone) PNone true true false
  | _ => raise e
  end.

(** Line 219. *)
Definition is_Response_or_starts_with_one (result : pyval) : exn + bool :=
  match result with
  | PResponse _ => inr true
  | PList l =>
      match l with
      | [] => inl IndexError
      | PResponse _ :: _ => inr true
      | _ :: _ => inr false
      end
  | _ => inr false
  end.

(** Lines 212-215, [num_entities]. *)
Definition num_entities (result : pyval) : exn + option Z :=
  match result with
  | PDict d =>
      match dict_get d (KStr "entities") with
      | Some entities =>
          match len entities with
          | inl e => inl e
          | inr n => inr (Some n)
          end
      | None => inr None
      end
  | _ => inr None
  end.

(** Lines 217-220: a result that is not a [Response] (or a sequence
    that starts with one) is raw data to serialise. *)
Definition normalise (env : Env) (result : pyval) : M pyval :=
  let* ready := lift (is_Response_or_starts_with_one result) in
  if ready then ret result
  else
    let* text := json_dumps_M env result in
    ret (view_tuple text 200 json_content_type).

(** Line 224, the count of the completion line: it reads the local
    [entity_type] when [num_entities] is true, and that local is bound
    only if line 127 ran (UnboundLocalError otherwise). *)
Definition returned_count (num_entities : option Z) (entity_type : option pyval)
  : exn + option (Z * pyval) :=
  match num_entities with
  | Some n =>
      if Z.eqb n 0 then inr None
      else
        match entity_type with
        | Some t => inr (Some (n, t))
        | None => inl (NameError "entity_type")
        end
  | None => inr None
  end.

(** Lines 212-229. *)
Definition finish (env : Env) (entity_type : option pyval) (result : pyval) : M pyval :=
  let* num_entities := lift (num_entities result) in
  let* result := normalise env result in
  let* count := lift (returned_count num_entities entity_type) in
  log_record INFO (Returned count) ;;;
  set_skip_http_log true ;;;
  ret result.

(** Lines 150-229: the request once its envelope is read and its
    headline logged. *)
Definition dispatch (env : Env) (req : Request)
    (method_name method_params : pyval) (entity_type : option pyval) : M pyval :=
  (* lines 150-158 *)
  match lookup_method env method_name with
  | inl KeyError =>
      log_record INFO
        (PassingThroughUnknown method_name (debug_detail env method_params)) ;;;
      passthrough env req (payload_obj PNone) PNone true true false
  | inl e => raise e
  | inr (name, method) =>
      (* lines 162-210 *)
      let* result :=
        try_except (run_method env req name method method_params)
                   (on_exception env req method_name method_params) in
      (* lines 212-229 *)
      finish env entity_type result
  end.

Definition json_api (env : Env) (req : Request) : M pyval :=
  (* line 111 *)
  let* payload := json_loads_M env (request_data req) in
  set_g_api3_payload payload ;;;
  (* lines 113-114 *)
  if negb (is_dict payload) then ret malformed
  else
    (* lines 116-122 *)
    match read_envelope payload with
    | inl KeyError => ret malformed
    | inl e => raise e
    | inr (method_name, auth_params, method_params) =>
        (* lines 125-148 *)
        let* (chunks, entity_type) := lift (headline method_name auth_params method_params) in
        log_record INFO (Headline chunks) ;;;
        dispatch env req method_name method_params entity_type
    end.

(** ** proxy (lines 242-266) *)

Definition proxy (env : Env) (req : Request) : M pyval :=
  let url := FALLBACK_SERVER env +:+ request_path req in
  let headers := remove_hop_by_hop_headers (without_host (request_headers req)) in
  let* remote_response :=
    session_request env
      (mkHttpRequest (request_method req) url (request_data req) (request_args req)
                     (dict_of_headers headers) true) in
  let headers := remove_hop_by_hop_headers (response_headers remote_response) in
  ret (PResponse (mkResponse (BodyStream (content remote_response))
                             (status_code remote_response) None headers true)).

(** ** Requests that reach the dispatch *)

(** The body of [req] decodes to the map [payload]; lines 116-122 read
    [method_name], [auth_params] and [method_params] from it, and lines
    125-147 build the headline [chunks] and bind [entity_type]. *)
Definition envelope (env : Env) (req : Request) (payload : pyval)
    (method_name auth_params method_params : pyval)
    (chunks : list chunk) (entity_type : option pyval) : Prop :=
  json_loads env (request_data req) = Some payload /\
  is_dict payload = true /\
  read_envelope payload = inr (method_name, auth_params, method_params) /\
  headline method_name auth_params method_params = inr (chunks, entity_type).

(** The state in which lines 150-229 start. *)
Definition at_dispatch (s : state) (payload : pyval) (chunks : list chunk) : state :=
  add_log (store_payload s payload) INFO (Headline chunks).

(** Lines 57-60 for the default [payload]: the copy of the stored
    envelope that is sent, with the override in place. *)
Definition copy_with_override (stored params : pyval) : exn + pyval :=
  match params with
  | PNone => inr stored
  | _ => substitute_params stored params
  end.

(** The request that [passthrough] posts for the body [data]. *)
Definition upstream_post (env : Env) (req : Request) (data : string) (stream : bool)
  : http_request :=
  mkHttpRequest "POST" (FALLBACK_URL env) data [] (passthrough_headers req) stream.

(** ** Properties of traces, logs and headers *)

(** [c] only appends to the trace, and every event it appends
    satisfies [P]. *)
Definition appends (P : event -> Prop) {A} (c : M A) : Prop :=
  forall s, exists t, trace (snd (c s)) = trace s ++ t /\ Forall P t.

(** A header that may cross the proxy: neither [Host] nor hop-by-hop. *)
Definition forwardable (k : string) : Prop :=
  lower k <> "host" /\ is_hop_by_hop_header k = false.

Definition sanitized_map (m : gmap string string) : Prop :=
  forall k v, m !! k = Some v -> forwardable k.

Definition sanitized_list (hs : list (string * string)) : Prop :=
  forall k v, In (k, v) hs -> forwardable k.

Definition no_hop_by_hop (hs : list (string * string)) : Prop :=
  forall k v, In (k, v) hs -> is_hop_by_hop_header k = false.

(** An outbound request carries sanitized headers. *)
Definition sanitized_post (e : event) : Prop :=
  match e with
  | Post rq => sanitized_map (rq_headers rq)
  | _ => True
  end.

(** The values that the [for] loop of lines 179-180 logs when the
    generator is resumed with [None] again and again, and the exception
    that ends the loop, if one does: the one the generator raises, or
    the TypeError of line 180 on a tuple that does not have one item. *)
Fixpoint drain (c : gen) : list pyval * option exn :=
  match c with
  | GYield x k => let '(xs, e) := drain (k (Send PNone)) in (x :: xs, e)
  | GYieldTuple ys k =>
      match ys with
      | [x] => let '(xs, e) := drain (k (Send PNone)) in (x :: xs, e)
      | _ => ([], Some TypeError)
      end
  | GStop => ([], None)
  | GRaise e => ([], Some e)
  end.

(** The state after the [for] loop of lines 179-180 over a generator
    that yields [xs]. *)
Definition after_extra_yields (s : state) (xs : list pyval) : state :=
  fold_left (fun s x => add_log (add_event s (Resume (Send PNone))) WARNING (ExtraYielded x))
            xs s.

(** The count of the completion line (lines 212-215 and 223-226) for
    the raw result [result]: [n] and the entity type when [result] is a
    map whose [entities] has [n > 0] items. *)
Definition completion_count (entity_type : option pyval) (result : pyval)
  : option (Z * pyval) :=
  match result with
  | PDict d =>
      match dict_get d (KStr "entities"), entity_type with
      | Some entities, Some t =>
          match len entities with
          | inr n => if Z.eqb n 0 then None else Some (n, t)
          | inl _ => None
          end
      | _, _ => None
      end
  | _ => None
  end.

(** The completion line is the last log record and the access-log line
    is suppressed. *)
Definition completion_logged (s : state) : Prop :=
  skip_http_log s = true /\ exists count, last (log s) = Some (INFO, Returned count).

(** [c] never assigns [g.api3_payload]. *)
Definition keeps_g {A} (c : M A) : Prop :=
  forall s, g_api3_payload (snd (c s)) = g_api3_payload s.

(** What lines 217-220 make of [result] when they raise nothing. *)
Definition normalised (env : Env) (result : pyval) : option pyval :=
  match is_Response_or_starts_with_one result with
  | inr true => Some result
  | inr false =>
      match json_dumps env result with
      | Some text => Some (view_tuple text 200 json_content_type)
      | None => None
      end
  | inl _ => None
  end.

(** ** The rest of the module *)

(** Lines 271-274, [api3_method(func)] for a function whose [__name__]
    is [name]: the module with [_api3_methods[name] = func]. *)
Definition api3_method (env : Env) (name : string) (func : handler) : Env :=
  mkEnv (json_loads env) (json_dumps env) (FALLBACK_SERVER env) (http_session env)
        (<[name := func]> (_api3_methods env)) (app_debug env).

(** The request that [proxy] sends (lines 244-256). *)
Definition proxy_request (env : Env) (req : Request) : http_request :=
  mkHttpRequest (request_method req) (FALLBACK_SERVER env +:+ request_path req)
                (request_data req) (request_args req)
                (dict_of_headers
                   (remove_hop_by_hop_headers (without_host (request_headers req))))
                true.

(** The value of the last pair of [hs] whose key is [k]. *)
Fixpoint last_value (k : string) (hs : list (string * string)) : option string :=
  match hs with
  | [] => None
  | (k', v) :: hs' =>
      match last_value k hs' with
      | Some w => Some w
      | None => if String.eqb k' k then Some v else None
      end
  end.

(** The test of lines 53-54 on a header name: neither [Host] nor
    hop-by-hop. *)
Definition forwarded (k : string) : bool :=
  negb (String.eqb (lower k) "host") && negb (is_hop_by_hop_header k).

Definition is_call (e : event) : bool :=
  match e with Call _ _ => true | _ => false end.

(** An exception that none of the [except] clauses of lines 184-199
    names. *)
Definition uncaught (e : exn) : bool :=
  match e with
  | ReturnResponse _ | ReturnPassthroughError _ | Signal _ => false
  | _ => true
  end.

(** Lines 164-180 once [method(method_params)] has given [r]. *)
Definition method_outcome (env : Env) (req : Request) (r : hresult) : M pyval :=
  match r with
  | HReturn result => ret result
  | HRaise e => raise e
  | HGenerator coroutine =>
      let* (passthrough_params, k) := resume coroutine (Send PNone) in
      try_except_else
        (passthrough env req (payload_obj PNone) passthrough_params true false false)
        (fun _ => unbound_name "sys")
        (fun passthrough_results =>
           let* (result, k') := resume (k (Send passthrough_results)) (Send passthrough_results) in
           extra_yields (k' (Send PNone)) ;;;
           ret result)
  end.



(** [c] touches neither the log, nor the flag, nor the trace. *)
Definition quiet {A} (c : M A) : Prop :=
  forall s, log (snd (c s)) = log s /\
            skip_http_log (snd (c s)) = skip_http_log s /\
            trace (snd (c s)) = trace s.

(** [c] logs nothing, leaves the flag alone, and does at most one thing
    to its collaborators: one call of [http_session.post] on
    [FALLBACK_URL] with the sanitized headers of the request. *)
Definition posts_at_most_once (env : Env) (req : Request) (stream : bool) {A} (c : M A)
  : Prop :=
  forall s, log (snd (c s)) = log s /\
            skip_http_log (snd (c s)) = skip_http_log s /\
            (trace (snd (c s)) = trace s \/
             exists data, trace (snd (c s)) =
                          trace s ++ [Post (upstream_post env req data stream)]).

(** What is relayed of an upstream answer that is not decoded. *)
Definition relayed_body (stream : bool) (up : http_response) : body :=
  if stream then BodyStream (content up) else BodyText (content up).

(** The test of line 219 on [e.args]: a sequence that starts with a
    [Response]. *)
Definition starts_with_Response (args : list pyval) : bool :=
  match args with
  | PResponse _ :: _ => true
  | _ => false
  end.

(** [args] of an exception that is an instance of [ReturnResponse]. *)
Definition ReturnResponse_args (e : exn) : option (list pyval) :=
  match e with
  | ReturnResponse args | ReturnPassthroughError args => Some args
  | _ => None
  end.

(** The state once the registered method [name] has been called on
    [method_params]. *)
Definition called (s : state) (payload : pyval) (chunks : list chunk)
    (name : string) (method_params : pyval) : state :=
  add_event (at_dispatch s payload chunks) (Call name method_params).

(** The state after the completion line of lines 222-227. *)
Definition completed (s : state) (count : option (Z * pyval)) : state :=
  store_skip_http_log (add_log s INFO (Returned count)) true.

(** [c] only appends to the trace, and at most [n] calls of
    [http_session] among what it appends. *)
Definition posts_at_most (n : nat) {A} (c : M A) : Prop :=
  forall s, exists t, trace (snd (c s)) = trace s ++ t /\
                      (length (List.filter is_post t) <= n)%nat.

(** [coroutine.throw(...)]. *)
Definition is_throw (e : event) : bool :=
  match e with Resume (Throw _) => true | _ => false end.

(** [c] never assigns [log_globals.skip_http_log]. *)
Definition keeps_skip_http_log {A} (c : M A) : Prop :=
  forall s, skip_http_log (snd (c s)) = skip_http_log s.




(** A batch item that is a map whose [request_type], if it has one, is
    a string. *)
Definition batch_item (x : pyval) : Prop :=
  exists d, x = PDict d /\
            forall v, dict_get d (KStr "request_type") = Some v -> exists t, v = PStr t.

(** A map without the key [request_type]. *)
Definition lacks_request_type (x : pyval) : Prop :=
  exists d, x = PDict d /\ dict_get d (KStr "request_type") = None.

(** ** The claims of the specification, in its own words *)

(** The header set of a [Response] on the wire: the headers it was
    given and the Content-Type of its mimetype. *)
Definition wire_headers (r : Response) : list (string * string) :=
  headers r ++ match mimetype r with
               | Some m => [("Content-Type", m)]
               | None => []
               end.

(** A direct streaming call to the upstream endpoint with the body and
    the sanitized headers of the request. *)
Definition direct_streaming_call (env : Env) (req : Request) : http_request :=
  mkHttpRequest "POST" (FALLBACK_URL env) (request_data req) [] (passthrough_headers req) true.

(** [v] is a response with exactly the status, the headers and the body
    of the upstream response [up]. *)
Definition same_as_upstream (up : http_response) (v : pyval) : Prop :=
  match v with
  | PResponse r =>
      status r = status_code up /\
      response r = BodyStream (content up) /\
      wire_headers r = response_headers up
  | _ => False
  end.

(** The dispatcher answers what the direct streaming call produces. *)
Definition delegates_verbatim (env : Env) (req : Request) (s : state) : Prop :=
  exists up v,
    http_session env (posts_so_far s) (direct_streaming_call env req) = inr up /\
    fst (json_api env req s) = inr v /\
    same_as_upstream up v.

(** The dispatcher answers 400 with an empty body, having called no
    handler and made no upstream call. *)
Definition rejected_as_malformed (env : Env) (req : Request) (s : state) : Prop :=
  fst (json_api env req s) = inr malformed /\
  trace (snd (json_api env req s)) = trace s.

Definition posts_of (t : list event) : list http_request :=
  flat_map (fun e => match e with Post r => [r] | _ => [] end) t.

(** The upstream calls of the request carry the envelope of the request
    with the same method name and auth params, and [override] as method
    params. *)
Definition override_sent_in_method_params (env : Env) (req : Request) (s : state)
    (override : pyval) : Prop :=
  exists payload method_name auth_params method_params rq sent,
    json_loads env (request_data req) = Some payload /\
    read_envelope payload = inr (method_name, auth_params, method_params) /\
    posts_of (trace (snd (json_api env req s))) = posts_of (trace s) ++ [rq] /\
    json_loads env (rq_data rq) = Some sent /\
    read_envelope sent = inr (method_name, auth_params, override).

(** The decoded value contains [exception: true]. *)
Definition exception_is_true (v : pyval) : bool :=
  match v with
  | PDict d =>
      match dict_get d (KStr "exception") with
      | Some (PBool true) => true
      | _ => false
      end
  | _ => false
  end.

(** The outcome of a buffered call on a 200 answer with text [text]
    decoding to [v]: the return-this-exact-response signal when the
    caller is exception-sensitive and [v] contains [exception: true],
    else [v] as plain data. *)
Definition buffered_outcome (raise_exceptions : bool) (text : string) (v : pyval)
  : exn + pyval :=
  if (raise_exceptions && exception_is_true v)%bool
  then inl (ReturnResponse [PStr text; PInt 200; json_content_type])
  else inr v.

(** The headers of the response that [proxy] relays are sanitized. *)
Definition relays_sanitized_headers (env : Env) (req : Request) (s : state) : Prop :=
  forall r, fst (proxy env req s) = inr (PResponse r) -> sanitized_list (headers r).

(** ** Concrete scenarios *)
Module Scenario.

Definition text (v : pyval) : string :=
  match json.dumps v with
  | Some t => t
  | None => EmptyString
  end.

Definition auth_params : pyval :=
  PDict [(KStr "script_name", PStr "toolkit"); (KStr "script_key", PStr "secret")].

Definition method_params : pyval :=
  PDict [(KStr "type", PStr "Shot"); (KStr "id", PInt 12)].

Definition payload (method_name : string) (params : pyval) : pyval :=
  PDict [(KStr "method_name", PStr method_name); (KStr "params", params)].

Definition request_headers : list (string * string) :=
  [("Host", "sgcache.example.com"); ("Connection", "keep-alive");
   ("Content-Type", "application/json"); ("Transfer-Encoding", "chunked")].

Definition request (method_name : string) (params : pyval) : Request :=
  mkRequest "POST" "/api3/json" [] request_headers (text (payload method_name params)).

(** An upstream that answers every call the same way. *)
Definition upstream (st : Z) (hs : list (string * string)) (body : string)
  : nat -> http_request -> exn + http_response :=
  fun _ _ => inr (mkHttpResponse st hs body).

Definition upstream_headers : list (string * string) :=
  [("Content-Type", "application/json; charset=utf-8"); ("Cache-Control", "no-cache")].

(** A Direct handler that raises [Fault(code=102, 'Not found')]. *)
Definition delete : handler :=
  fun _ => HRaise (Signal (Fault "Fault" 102 "Not found")).

(** A Direct handler that returns two entities. *)
Definition read : handler :=
  fun _ => HReturn (PDict [(KStr "entities", PList [PDict [(KStr "id", PInt 1)];
                                                    PDict [(KStr "id", PInt 2)]])]).

Definition override : pyval :=
  PDict [(KStr "type", PStr "Shot"); (KStr "return_fields", PList [PStr "code"])].

(** A Two-Phase handler: it yields [override], and then the upstream
    results under the key [results]. *)
Definition create : handler :=
  fun _ => HGenerator
    (GYield override (fun r =>
       match r with
       | Send results => GYield (PDict [(KStr "results", results)]) (fun _ => GStop)
       | Throw e => GRaise e
       end)).

(** A Two-Phase handler that goes on yielding [1] and [2] after its
    result. *)
Definition update : handler :=
  fun _ => HGenerator
    (GYield override (fun r =>
       match r with
       | Send results =>
           GYield (PDict [(KStr "results", results)]) (fun _ =>
             GYield (PInt 1) (fun _ => GYield (PInt 2) (fun _ => GStop)))
       | Throw e => GRaise e
       end)).

Definition registry : gmap string handler :=
  <["delete" := delete]> (<["read" := read]> (<["create" := create]>
    (<["update" := update]> ∅))).

Definition env (st : Z) (hs : list (string * string)) (body : string) : Env :=
  mkEnv json.loads json.dumps "https://shotgun.example.com" (upstream st hs body)
        registry false.

(** Before the request: nothing stored, nothing logged. *)
Definition idle : state := mkState None [] false [].

(** Inside a request whose envelope is stored. *)
Definition stored (v : pyval) : state := mkState (Some v) [] false [].

Definition upload : Request :=
  mkRequest "POST" "/upload/publish" [("id", "12")] request_headers "bytes".

End Scenario.

(** ** Running the module *)

(** One step of [bind]. *)
Lemma bind_run {A B} (c : M A) (k : A -> M B) s :
  bind c k s = match c s with
               | (inr a, s') => k a s'
               | (inl e, s') => (inl e, s')
               end.
Proof. reflexivity. Qed.

(** Lines 111-148 on a request that reaches the dispatch. *)
Lemma json_api_dispatches env req s payload method_name auth_params method_params
    chunks entity_type :
  envelope env req payload method_name auth_params method_params chunks entity_type ->
  json_api env req s =
  dispatch env req method_name method_params entity_type (at_dispatch s payload chunks).
Proof.
  intros (Hl & Hd & Hr & Hh).
  unfold json_api, json_loads_M, bind at 1. rewrite Hl. cbn [ret].
  unfold bind at 1. cbn [set_g_api3_payload].
  rewrite Hd. cbn [negb]. rewrite Hr.
  unfold bind at 1. rewrite Hh. cbn [lift ret].
  unfold bind at 1. cbn [log_record]. reflexivity.
Qed.

(** Lines 150-229 for a registered method. *)
Lemma dispatch_registered env req s method_name method_params entity_type name method :
  lookup_method env method_name = inr (name, method) ->
  dispatch env req method_name method_params entity_type s =
  (let* result := try_except (run_method env req name method method_params)
                             (on_exception env req method_name method_params) in
   finish env entity_type result) s.
Proof. intros H. unfold dispatch. rewrite H. reflexivity. Qed.

(** Lines 188-196: the [except Fault] clause logs, then reads [res_data]. *)
Lemma dispatch_Fault env req s method_name method_params entity_type name method cls code msg :
  lookup_method env method_name = inr (name, method) ->
  method method_params = HRaise (Signal (Fault cls code msg)) ->
  dispatch env req method_name method_params entity_type s =
  (inl (NameError "res_data"),
   add_log (add_event s (Call name method_params)) WARNING (FaultRaised cls code msg)).
Proof.
  intros Hm Hf. unfold dispatch. rewrite Hm.
  unfold bind, try_except, run_method, bind, emit. rewrite Hf. reflexivity.
Qed.

(** Lines 62-63 on a dict. *)
Lemma request_body_dict env payload data :
  is_dict payload = true -> json_dumps env payload = Some data ->
  forall s, request_body env payload s = (inr data, s).
Proof.
  intros Hd Hj s. destruct payload; try discriminate Hd.
  unfold request_body, json_dumps_M. rewrite Hj. reflexivity.
Qed.

Lemma substitute_params_dict stored params sent :
  substitute_params stored params = inr sent -> is_dict sent = true.
Proof.
  unfold substitute_params. destruct stored; cbn; try discriminate.
  destruct (dict_get d (KStr "params")); try discriminate.
  destruct (setitem_last p params); try discriminate.
  intros [= <-]. reflexivity.
Qed.

Lemma copy_with_override_dict stored params sent :
  is_dict stored = true ->
  copy_with_override stored params = inr sent -> is_dict sent = true.
Proof.
  intros Hd. unfold copy_with_override.
  destruct params; try apply substitute_params_dict.
  intros [= <-]. exact Hd.
Qed.

Lemma copy_with_override_given stored params :
  params <> PNone -> copy_with_override stored params = substitute_params stored params.
Proof. intros H. destruct params; try reflexivity. congruence. Qed.

(** [l[-1] = x] on a list that is not empty. *)
Lemma set_last_spec ps x :
  ps <> [] -> set_last ps x = Some (removelast ps ++ [x]).
Proof.
  induction ps as [| a ps IH]; [congruence |]. intros _.
  destruct ps as [| b ps]; [reflexivity |].
  change (set_last (a :: b :: ps) x)
    with (match set_last (b :: ps) x with Some r => Some (a :: r) | None => None end).
  rewrite IH by discriminate. reflexivity.
Qed.

(** Line 60 on an envelope whose [params] is a list. *)
Lemma substitute_params_list d ps ps' x :
  dict_get d (KStr "params") = Some (PList ps) ->
  set_last ps x = Some ps' ->
  substitute_params (PDict d) x = inr (PDict (dict_set d (KStr "params") (PList ps'))).
Proof.
  intros Hd Hs. unfold substitute_params. cbn [getitem]. rewrite Hd.
  cbn [setitem_last]. rewrite Hs. reflexivity.
Qed.

(** [passthrough] with the default payload: the post and what is made of
    the answer. *)
Lemma passthrough_default env req params raise_exceptions stream final s stored sent data :
  g_api3_payload s = Some stored ->
  is_dict sent = true ->
  copy_with_override stored params = inr sent ->
  json_dumps env sent = Some data ->
  passthrough env req (payload_obj PNone) params raise_exceptions stream final s =
  (match http_session env (posts_so_far s) (upstream_post env req data stream) with
   | inl e => inl e
   | inr up => passthrough_response env raise_exceptions stream final up
   end,
   add_event s (Post (upstream_post env req data stream))).
Proof.
  intros Hg Hs Hc Hj.
  unfold passthrough. rewrite bind_run. rewrite bind_run.
  unfold get_g_api3_payload. rewrite Hg. cbn [ret].
  rewrite bind_run.
  assert (Hp : (match params with
                | PNone => ret stored
                | _ => let* p := lift (substitute_params stored params) in
                       (if false then set_g_api3_payload p else ret tt) ;;; ret p
                end) s = (inr sent, s)).
  { unfold copy_with_override in Hc. destruct params;
      try (rewrite bind_run, Hc; reflexivity).
    injection Hc as <-. reflexivity. }
  rewrite Hp. rewrite bind_run. rewrite (request_body_dict _ _ _ Hs Hj).
  rewrite bind_run. unfold session_request. rewrite bind_run. cbn [emit].
  unfold upstream_post.
  destruct (http_session env (posts_so_far s) _) as [e|up]; cbn [lift raise ret].
  - reflexivity.
  - destruct (passthrough_response env raise_exceptions stream final up); reflexivity.
Qed.

(** A buffered call answered 200 with a body that decodes to [v], free
    of [exception]. *)
Lemma passthrough_response_data env up v :
  status_code up = 200 ->
  json_loads env (content up) = Some v ->
  contains_str v "exception" = inr false ->
  passthrough_response env true false false up = inr v.
Proof.
  intros Hst Hl Hc. unfold passthrough_response. rewrite Hst, Hl, Hc. reflexivity.
Qed.

Lemma posts_so_far_add_event s e :
  is_post e = false -> posts_so_far (add_event s e) = posts_so_far s.
Proof.
  intros He. unfold posts_so_far. cbn [trace add_event].
  rewrite List.filter_app. cbn. rewrite He. rewrite app_nil_r. reflexivity.
Qed.

Lemma posts_of_app t1 t2 : posts_of (t1 ++ t2) = posts_of t1 ++ posts_of t2.
Proof. unfold posts_of. apply flat_map_app. Qed.

Lemma posts_of_resumes n r : posts_of (repeat (Resume r) n) = [].
Proof. induction n; [reflexivity | exact IHn]. Qed.

(** ** Computations that only append to the trace *)
Section Appends.
Variable P : event -> Prop.

Lemma appends_ret {A} (a : A) : appends P (ret a).
Proof. intros s. exists []. split; [symmetry; apply app_nil_r | constructor]. Qed.

Lemma appends_raise {A} e : appends P (@raise A e).
Proof. intros s. exists []. split; [symmetry; apply app_nil_r | constructor]. Qed.

Lemma appends_lift {A} (r : exn + A) : appends P (lift r).
Proof. destruct r; [apply appends_raise | apply appends_ret]. Qed.

Lemma appends_same {A} (c : M A) :
  (forall s, trace (snd (c s)) = trace s) -> appends P c.
Proof.
  intros H s. exists []. split; [rewrite H; symmetry; apply app_nil_r | constructor].
Qed.

Lemma appends_emit e : P e -> appends P (emit e).
Proof. intros He s. exists [e]. split; [reflexivity | repeat constructor; exact He]. Qed.

Lemma appends_bind {A B} (c : M A) (k : A -> M B) :
  appends P c -> (forall a, appends P (k a)) -> appends P (bind c k).
Proof.
  intros Hc Hk s. rewrite bind_run. destruct (Hc s) as (t & Ht & Pt).
  destruct (c s) as [[e|a] s']; cbn [snd] in *.
  - exists t. split; assumption.
  - destruct (Hk a s') as (t' & Ht' & Pt'). exists (t ++ t'). split.
    + rewrite Ht', Ht. symmetry. apply app_assoc.
    + apply Forall_app. split; assumption.
Qed.

Lemma appends_try_except_else {A B} (c : M A) (h : exn -> M B) (k : A -> M B) :
  appends P c -> (forall e, appends P (h e)) -> (forall a, appends P (k a)) ->
  appends P (try_except_else c h k).
Proof.
  intros Hc Hh Hk s. unfold try_except_else. destruct (Hc s) as (t & Ht & Pt).
  destruct (c s) as [[e|a] s']; cbn [snd] in *.
  - destruct (Hh e s') as (t' & Ht' & Pt'). exists (t ++ t'). split.
    + rewrite Ht', Ht. symmetry. apply app_assoc.
    + apply Forall_app. split; assumption.
  - destruct (Hk a s') as (t' & Ht' & Pt'). exists (t ++ t'). split.
    + rewrite Ht', Ht. symmetry. apply app_assoc.
    + apply Forall_app. split; assumption.
Qed.

Lemma appends_try_except {A} (c : M A) (h : exn -> M A) :
  appends P c -> (forall e, appends P (h e)) -> appends P (try_except c h).
Proof.
  intros Hc Hh s. unfold try_except. destruct (Hc s) as (t & Ht & Pt).
  destruct (c s) as [[e|a] s']; cbn [snd] in *.
  - destruct (Hh e s') as (t' & Ht' & Pt'). exists (t ++ t'). split.
    + rewrite Ht', Ht. symmetry. apply app_assoc.
    + apply Forall_app. split; assumption.
  - exists t. split; assumption.
Qed.

Lemma appends_get_g_api3_payload : appends P get_g_api3_payload.
Proof.
  apply appends_same. intros s. unfold get_g_api3_payload.
  destruct (g_api3_payload s); reflexivity.
Qed.

Variable env : Env.
Variable req : Request.
Hypothesis P_post : forall data stream, P (Post (upstream_post env req data stream)).
Hypothesis P_call : forall name arg, P (Call name arg).
Hypothesis P_resume : forall r, P (Resume r).

Ltac appends_step :=
  match goal with
  | |- appends _ (bind _ _) => apply appends_bind; [| intros ?]
  | |- appends _ (ret _) => apply appends_ret
  | |- appends _ (raise _) => apply appends_raise
  | |- appends _ (unbound_name _) => apply appends_raise
  | |- appends _ (lift _) => apply appends_lift
  | |- appends _ (log_record _ _) => apply appends_same; reflexivity
  | |- appends _ (set_g_api3_payload _) => apply appends_same; reflexivity
  | |- appends _ (set_skip_http_log _) => apply appends_same; reflexivity
  | |- appends _ get_g_api3_payload => apply appends_get_g_api3_payload
  | |- appends _ (emit _) => apply appends_emit; auto
  | |- appends _ (match ?x with _ => _ end) => destruct x
  end.

Lemma appends_json_dumps_M v : appends P (json_dumps_M env v).
Proof. unfold json_dumps_M. repeat appends_step. Qed.

Lemma appends_json_loads_M t : appends P (json_loads_M env t).
Proof. unfold json_loads_M. repeat appends_step. Qed.

Lemma appends_session_request data stream :
  appends P (session_request env (upstream_post env req data stream)).
Proof.
  intros s. unfold session_request.
  apply (appends_bind (emit _) (fun _ => lift (http_session env (posts_so_far s) _))).
  - apply appends_emit, P_post.
  - intros _. apply appends_lift.
Qed.

Lemma appends_passthrough payload params raise_exceptions stream final :
  appends P (passthrough env req payload params raise_exceptions stream final).
Proof.
  unfold passthrough.
  apply appends_bind; [repeat appends_step |]. intros [p shared].
  apply appends_bind; [repeat appends_step |]. intros p'.
  apply appends_bind.
  { unfold request_body. destruct p'; try apply appends_json_dumps_M. apply appends_ret. }
  intros data. apply appends_bind; [| intros ?; apply appends_lift].
  apply (appends_session_request data stream).
Qed.

Lemma appends_resume c r : appends P (resume c r).
Proof. unfold resume. repeat appends_step. Qed.

Lemma appends_extra_yields c : appends P (extra_yields c).
Proof.
  induction c as [| e | x k IH | xs k IH]; cbn [extra_yields]; repeat appends_step;
    apply IH.
Qed.

Lemma appends_run_method name method method_params :
  appends P (run_method env req name method method_params).
Proof.
  unfold run_method. apply appends_bind; [apply appends_emit, P_call |]. intros _.
  destruct (method method_params); repeat appends_step.
  - apply appends_resume.
  - apply appends_try_except_else; intros; repeat appends_step.
    + apply appends_passthrough.
    + apply appends_resume.
    + apply appends_extra_yields.
Qed.

Lemma appends_on_exception method_name method_params e :
  appends P (on_exception env req method_name method_params e).
Proof.
  unfold on_exception. destruct e as [| | [] | | | | | | | |]; repeat appends_step;
    try apply appends_passthrough; try apply appends_json_dumps_M.
Qed.

Lemma appends_finish entity_type result : appends P (finish env entity_type result).
Proof.
  unfold finish, normalise. repeat appends_step; try apply appends_json_dumps_M.
Qed.

Lemma appends_dispatch method_name method_params entity_type :
  appends P (dispatch env req method_name method_params entity_type).
Proof.
  unfold dispatch. repeat appends_step; try apply appends_passthrough.
  - apply appends_try_except; [apply appends_run_method |].
    intros; apply appends_on_exception.
  - apply appends_finish.
Qed.

Lemma appends_json_api : appends P (json_api env req).
Proof.
  unfold json_api. repeat appends_step; try apply appends_json_loads_M.
  apply appends_dispatch.
Qed.

Lemma appends_proxy :
  (forall rq, rq_headers rq =
              dict_of_headers (remove_hop_by_hop_headers (without_host (request_headers req))) ->
              P (Post rq)) ->
  appends P (proxy env req).
Proof.
  intros HP. unfold proxy. apply appends_bind; [| intros; apply appends_ret].
  intros s. unfold session_request.
  apply (appends_bind (emit _) (fun _ => lift (http_session env (posts_so_far s) _))).
  - apply appends_emit, HP. reflexivity.
  - intros _. apply appends_lift.
Qed.
End Appends.

(** ** Computations that leave [g.api3_payload] alone *)

Lemma keeps_g_bind {A B} (c : M A) (k : A -> M B) :
  keeps_g c -> (forall a, keeps_g (k a)) -> keeps_g (bind c k).
Proof.
  intros Hc Hk s. rewrite bind_run. specialize (Hc s).
  destruct (c s) as [[e|a] s']; cbn [snd] in *; [exact Hc |].
  rewrite Hk. exact Hc.
Qed.

Lemma keeps_g_lift {A} (r : exn + A) : keeps_g (lift r).
Proof. destruct r; intros s; reflexivity. Qed.

Lemma keeps_g_get : keeps_g get_g_api3_payload.
Proof.
  intros s. unfold get_g_api3_payload.
  destruct (g_api3_payload s) eqn:Hg; cbn [snd]; [exact Hg | exact Hg].
Qed.

Lemma keeps_g_json_dumps_M env v : keeps_g (json_dumps_M env v).
Proof. intros s. unfold json_dumps_M. destruct (json_dumps env v); reflexivity. Qed.

Lemma keeps_g_session_request env r : keeps_g (session_request env r).
Proof.
  intros s. unfold session_request. rewrite bind_run. cbn [emit].
  destruct (http_session env (posts_so_far s) r); reflexivity.
Qed.

Lemma keeps_g_passthrough env req v params raise_exceptions stream final :
  keeps_g (passthrough env req (payload_obj v) params raise_exceptions stream final).
Proof.
  assert (H : forall (p : pyval),
             keeps_g (let* payload :=
                        match params with
                        | PNone => ret p
                        | _ => let* p0 := lift (substitute_params p params) in
                               (if false then set_g_api3_payload p0 else ret tt) ;;; ret p0
                        end in
                      let* data := request_body env payload in
                      let* http_response :=
                        session_request env
                          (mkHttpRequest "POST" (FALLBACK_URL env) data []
                                         (passthrough_headers req) stream) in
                      lift (passthrough_response env raise_exceptions stream final
                                                 http_response))).
  { intros p. apply keeps_g_bind.
    - destruct params; try (intros st; reflexivity);
        (apply keeps_g_bind; [apply keeps_g_lift | intros a st; reflexivity]).
    - intros p'. apply keeps_g_bind.
      + unfold request_body. destruct p'; try apply keeps_g_json_dumps_M.
        intros st; reflexivity.
      + intros data. apply keeps_g_bind; [apply keeps_g_session_request |].
        intros; apply keeps_g_lift. }
  intros st. unfold passthrough. rewrite bind_run.
  destruct v; cbn [ret]; try exact (H _ st).
  rewrite bind_run. unfold get_g_api3_payload.
  destruct (g_api3_payload st) eqn:Hg; cbn [ret snd];
    [rewrite <- Hg; exact (H p st) | exact Hg].
Qed.

(** ** Headers *)

Lemma without_host_In k v hs :
  In (k, v) (without_host hs) -> lower k <> "host" /\ In (k, v) hs.
Proof.
  unfold without_host. rewrite filter_In. cbn [fst]. intros [Hin Hk]. split; [| exact Hin].
  intros Heq. rewrite Heq in Hk. discriminate Hk.
Qed.

Lemma remove_hop_by_hop_headers_In k v hs :
  In (k, v) (remove_hop_by_hop_headers hs) ->
  is_hop_by_hop_header k = false /\ In (k, v) hs.
Proof.
  unfold remove_hop_by_hop_headers. rewrite filter_In. cbn [fst]. intros [Hin Hk].
  split; [| exact Hin]. destruct (is_hop_by_hop_header k); [discriminate Hk | reflexivity].
Qed.

Lemma dict_of_headers_In k v hs :
  dict_of_headers hs !! k = Some v -> In (k, v) hs.
Proof.
  unfold dict_of_headers. intros H. apply elem_of_list_to_map_2 in H.
  apply list_elem_of_In in H. apply in_rev. exact H.
Qed.

Lemma sanitized_request_headers hs :
  sanitized_map (dict_of_headers (remove_hop_by_hop_headers (without_host hs))).
Proof.
  intros k v H. apply dict_of_headers_In in H.
  apply remove_hop_by_hop_headers_In in H as [Hhop H].
  apply without_host_In in H as [Hhost _]. split; assumption.
Qed.

(** ** The completion line *)

(** [completion_count] is what lines 212-215 and 223-226 compute. *)
Lemma completion_count_spec entity_type result n c :
  num_entities result = inr n ->
  returned_count n entity_type = inr c ->
  completion_count entity_type result = c.
Proof.
  unfold num_entities, returned_count, completion_count.
  destruct result; try (intros [= <-] [= <-]; reflexivity).
  destruct (dict_get d (KStr "entities")) as [entities|].
  - destruct (len entities) as [e|m]; [discriminate |]. intros [= <-].
    destruct (Z.eqb m 0); destruct entity_type; intros [= <-]; reflexivity.
  - intros [= <-] [= <-]. reflexivity.
Qed.

(** [finish], when it returns: the completion line, then the flag. *)
Lemma finish_returns env entity_type result s v s' :
  finish env entity_type result s = (inr v, s') ->
  s' = store_skip_http_log
         (add_log s INFO (Returned (completion_count entity_type result))) true.
Proof.
  unfold finish. rewrite bind_run.
  destruct (num_entities result) as [e|n] eqn:Hn; cbn [lift raise ret]; [discriminate |].
  rewrite bind_run.
  assert (Hs : snd (normalise env result s) = s).
  { unfold normalise. rewrite bind_run.
    destruct (is_Response_or_starts_with_one result) as [e|[]]; cbn [lift raise ret];
      try reflexivity.
    rewrite bind_run. unfold json_dumps_M. destruct (json_dumps env result); reflexivity. }
  destruct (normalise env result s) as [[e|r] s1]; [discriminate |]. cbn [snd] in Hs. subst s1.
  rewrite bind_run.
  destruct (returned_count n entity_type) as [e|c] eqn:Hc; cbn [lift raise ret];
    [discriminate |].
  cbn. intros [= _ <-]. rewrite (completion_count_spec _ _ _ _ Hn Hc). reflexivity.
Qed.

(** [finish] on a result that lines 212-226 accept. *)
Lemma finish_ok env entity_type result s n count response :
  num_entities result = inr n ->
  returned_count n entity_type = inr count ->
  normalised env result = Some response ->
  finish env entity_type result s =
  (inr response, store_skip_http_log (add_log s INFO (Returned count)) true).
Proof.
  intros Hn Hc Hr. unfold finish. rewrite bind_run, Hn. cbn [lift ret].
  rewrite bind_run.
  assert (Hnorm : normalise env result s = (inr response, s)).
  { unfold normalise, normalised in *. rewrite bind_run.
    destruct (is_Response_or_starts_with_one result) as [e|[]]; cbn [lift ret];
      try discriminate.
    - injection Hr as <-. reflexivity.
    - rewrite bind_run. unfold json_dumps_M.
      destruct (json_dumps env result); [| discriminate]. injection Hr as <-. reflexivity. }
  rewrite Hnorm, bind_run, Hc. reflexivity.
Qed.

(** ** The Two-Phase protocol *)

(** The loop of lines 179-180 logs what [drain] lists. *)
Lemma extra_yields_drain c s :
  extra_yields c s =
  (match snd (drain c) with
   | None => inr tt
   | Some e => inl e
   end,
   add_event (after_extra_yields s (fst (drain c))) (Resume (Send PNone))).
Proof.
  revert s. induction c as [| e | x k IH | ys k IH]; intros s; try reflexivity.
  - cbn [extra_yields drain]. rewrite bind_run. cbn [emit]. rewrite bind_run. cbn [log_record].
    rewrite IH. destruct (drain (k (Send PNone))) as [xs e]. reflexivity.
  - cbn [extra_yields drain]. rewrite bind_run. cbn [emit].
    destruct ys as [| x [| y ys]]; try reflexivity.
    rewrite bind_run. cbn [log_record].
    rewrite IH. destruct (drain (k (Send PNone))) as [xs e]. reflexivity.
Qed.

Lemma after_extra_yields_log s xs :
  log (after_extra_yields s xs) = log s ++ List.map (fun x => (WARNING, ExtraYielded x)) xs.
Proof.
  revert s. induction xs as [| x xs IH]; intros s; cbn.
  - symmetry. apply app_nil_r.
  - unfold after_extra_yields in IH. rewrite IH. cbn. rewrite <- app_assoc. reflexivity.
Qed.

Lemma after_extra_yields_trace s xs :
  trace (after_extra_yields s xs) = trace s ++ repeat (Resume (Send PNone)) (length xs).
Proof.
  revert s. induction xs as [| x xs IH]; intros s; cbn.
  - symmetry. apply app_nil_r.
  - unfold after_extra_yields in IH. rewrite IH. cbn. rewrite <- app_assoc. reflexivity.
Qed.

Lemma after_extra_yields_g s xs :
  g_api3_payload (after_extra_yields s xs) = g_api3_payload s /\
  skip_http_log (after_extra_yields s xs) = skip_http_log s.
Proof.
  revert s. induction xs as [| x xs IH]; intros s; cbn; [split; reflexivity |].
  unfold after_extra_yields in IH.
  destruct (IH (add_log (add_event s (Resume (Send PNone))) WARNING (ExtraYielded x)))
    as [-> ->].
  split; reflexivity.
Qed.

Lemma after_extra_yields_state s xs :
  after_extra_yields s xs =
  mkState (g_api3_payload s)
          (log s ++ List.map (fun x => (WARNING, ExtraYielded x)) xs)
          (skip_http_log s)
          (trace s ++ repeat (Resume (Send PNone)) (length xs)).
Proof.
  rewrite <- after_extra_yields_log, <- after_extra_yields_trace.
  destruct (after_extra_yields_g s xs) as [<- <-].
  destruct (after_extra_yields s xs); reflexivity.
Qed.

(** The generator is resumed for its first [yield], then the call of
    line 174 fails. *)
Lemma run_method_upstream_failure env req name method method_params x k s e s2 :
  method method_params = HGenerator (GYield x k) ->
  passthrough env req (payload_obj PNone) x true false false
    (add_event (add_event s (Call name method_params)) (Resume (Send PNone))) = (inl e, s2) ->
  run_method env req name method method_params s = (inl (NameError "sys"), s2).
Proof.
  intros Hm Hp. unfold run_method. rewrite bind_run. cbn [emit]. rewrite Hm.
  rewrite bind_run. unfold resume. rewrite bind_run. cbn [emit ret].
  unfold try_except_else. rewrite Hp. reflexivity.
Qed.

(** Lines 164-176 up to the upstream call: the method is called, its
    generator started, and the copy of the stored envelope posted. *)
Lemma run_method_posted env req name method method_params x k s stored sent data :
  method method_params = HGenerator (GYield x k) ->
  g_api3_payload s = Some stored ->
  is_dict sent = true ->
  copy_with_override stored x = inr sent ->
  json_dumps env sent = Some data ->
  run_method env req name method method_params s =
  (match
     match http_session env (posts_so_far s) (upstream_post env req data false) with
     | inl e => inl e
     | inr up => passthrough_response env true false false up
     end
   with
   | inl _ => unbound_name "sys"
   | inr v =>
       let* (result, k') := resume (k (Send v)) (Send v) in
       extra_yields (k' (Send PNone)) ;;; ret result
   end)
    (add_event (add_event (add_event s (Call name method_params)) (Resume (Send PNone)))
               (Post (upstream_post env req data false))).
Proof.
  intros Hm Hg Hs Hc Hj. unfold run_method. rewrite bind_run. cbn [emit]. rewrite Hm.
  rewrite bind_run. unfold resume at 1. rewrite bind_run. cbn [emit ret].
  unfold try_except_else.
  erewrite passthrough_default; [| exact Hg | exact Hs | exact Hc | exact Hj].
  rewrite !posts_so_far_add_event by reflexivity.
  destruct (http_session env (posts_so_far s) _) as [e|up]; [reflexivity |].
  destruct (passthrough_response env true false false up); reflexivity.
Qed.

(** Lines 164-178 up to the first resumption, when the upstream call
    succeeds and the generator yields its result [r]. *)
Lemma run_method_resumed env req name method method_params x k s stored sent data up v r k' :
  method method_params = HGenerator (GYield x k) ->
  g_api3_payload s = Some stored ->
  is_dict sent = true ->
  copy_with_override stored x = inr sent ->
  json_dumps env sent = Some data ->
  http_session env (posts_so_far s) (upstream_post env req data false) = inr up ->
  status_code up = 200 ->
  json_loads env (content up) = Some v ->
  contains_str v "exception" = inr false ->
  k (Send v) = GYield r k' ->
  run_method env req name method method_params s =
  (extra_yields (k' (Send PNone)) ;;; ret r)
    (add_event
       (add_event (add_event (add_event s (Call name method_params)) (Resume (Send PNone)))
                  (Post (upstream_post env req data false)))
       (Resume (Send v))).
Proof.
  intros Hg Hst0 Hs Hc Hj Hup Hst Hl Hex Hk.
  rewrite (run_method_posted env req name method method_params x k s stored sent data
             Hg Hst0 Hs Hc Hj).
  rewrite Hup, (passthrough_response_data _ _ _ Hst Hl Hex).
  rewrite bind_run. unfold resume. rewrite bind_run. cbn [emit]. rewrite Hk. reflexivity.
Qed.

(** Whatever [run_method] goes on to do from [s1], the dispatch ends
    with a trace that extends the one of [s1]. *)
Lemma dispatch_continues env req method_name method_params entity_type name method
    s (c : M pyval) s1 :
  lookup_method env method_name = inr (name, method) ->
  run_method env req name method method_params s = c s1 ->
  appends (fun _ => True) c ->
  exists t, trace (snd (dispatch env req method_name method_params entity_type s))
            = trace s1 ++ t.
Proof.
  intros Hm Hr Hc.
  rewrite (dispatch_registered env req _ _ method_params entity_type _ _ Hm).
  assert (Ha : appends (fun _ => True)
                 (let* result := try_except c (on_exception env req method_name method_params) in
                  finish env entity_type result)).
  { apply appends_bind.
    - apply appends_try_except; [exact Hc |]. intros e. apply appends_on_exception. auto.
    - intros r. apply appends_finish. }
  destruct (Ha s1) as (t & Ht & _). exists t. rewrite <- Ht.
  rewrite !bind_run. unfold try_except. rewrite Hr. reflexivity.
Qed.

(** The whole request of a Two-Phase handler whose extra yields the
    loop of lines 179-180 can format, and whose result lines 212-226
    accept. *)
Lemma two_phase_run_with_extra_yields env req s payload method_name auth_params method_params
    chunks entity_type name method x k sent data up v r k' ys n count response :
  envelope env req payload method_name auth_params method_params chunks entity_type ->
  lookup_method env method_name = inr (name, method) ->
  method method_params = HGenerator (GYield x k) ->
  copy_with_override payload x = inr sent ->
  json_dumps env sent = Some data ->
  http_session env (posts_so_far s) (upstream_post env req data false) = inr up ->
  status_code up = 200 ->
  json_loads env (content up) = Some v ->
  contains_str v "exception" = inr false ->
  k (Send v) = GYield r k' ->
  drain (k' (Send PNone)) = (ys, None) ->
  num_entities r = inr n ->
  returned_count n entity_type = inr count ->
  normalised env r = Some response ->
  json_api env req s =
  (inr response,
   mkState (Some payload)
     (log s ++ (INFO, Headline chunks)
            :: List.map (fun y => (WARNING, ExtraYielded y)) ys
            ++ [(INFO, Returned count)])
     true
     (trace s ++ [Call name method_params; Resume (Send PNone);
                  Post (upstream_post env req data false); Resume (Send v)]
              ++ repeat (Resume (Send PNone)) (S (length ys)))).
Proof.
  intros He Hm Hg Hc Hj Hup Hst Hl Hex Hk Hd Hn Hcount Hresp.
  rewrite (json_api_dispatches _ _ _ _ _ _ _ _ _ He).
  assert (Hs : is_dict sent = true).
  { destruct He as (_ & Hdict & _). eapply copy_with_override_dict; eauto. }
  pose proof (run_method_posted env req name method method_params x k
                (at_dispatch s payload chunks) payload sent data Hg eq_refl Hs Hc Hj) as Hrun.
  change (posts_so_far (at_dispatch s payload chunks)) with (posts_so_far s) in Hrun.
  rewrite Hup, (passthrough_response_data _ _ _ Hst Hl Hex) in Hrun.
  rewrite bind_run in Hrun. unfold resume in Hrun. rewrite bind_run in Hrun.
  cbn [emit] in Hrun. rewrite Hk in Hrun. cbn [ret] in Hrun.
  rewrite bind_run, extra_yields_drain, Hd in Hrun. cbn [fst snd ret] in Hrun.
  rewrite (dispatch_registered env req _ _ method_params entity_type _ _ Hm).
  rewrite bind_run. unfold try_except. rewrite Hrun. cbv beta iota delta [ret].
  rewrite (finish_ok _ _ _ _ _ _ _ Hn Hcount Hresp).
  rewrite after_extra_yields_state. f_equal.
  unfold store_skip_http_log, add_log, add_event, at_dispatch, add_log, store_payload.
  cbn [g_api3_payload log skip_http_log trace].
  f_equal.
  - repeat rewrite <- app_assoc. cbn [app]. reflexivity.
  - repeat rewrite <- app_assoc. cbn [app]. rewrite <- repeat_cons. reflexivity.
Qed.

(** ** C1: a Fault raised by a handler *)

(** C1 (as the code has it).  When a registered handler raises
    [Fault(code, message)], the dispatcher logs the class, the code and
    the message at warning level, and then fails: line 196 serialises
    [res_data], a name the module never binds (the dict was bound to
    [result_data]), so a NameError leaves [json_api] and no 200 reply
    with the fault body is returned. *)
Theorem fault_reply_raises_NameError env req s payload method_name auth_params method_params
    chunks entity_type name method cls code msg :
  envelope env req payload method_name auth_params method_params chunks entity_type ->
  lookup_method env method_name = inr (name, method) ->
  method method_params = HRaise (Signal (Fault cls code msg)) ->
  json_api env req s =
  (inl (NameError "res_data"),
   add_log (add_event (at_dispatch s payload chunks) (Call name method_params))
           WARNING (FaultRaised cls code msg)).
Proof.
  intros He Hm Hf. rewrite (json_api_dispatches _ _ _ _ _ _ _ _ _ He).
  apply (dispatch_Fault _ _ _ _ _ _ name method); assumption.
Qed.

(** C1 at [Fault(code=102, 'Not found')] raised by the handler of
    [delete]. *)
Lemma fault_reply_raises_NameError_witness :
  json_api (Scenario.env 200 Scenario.upstream_headers "{}")
           (Scenario.request "delete" (PList [Scenario.auth_params; Scenario.method_params]))
           Scenario.idle =
  (inl (NameError "res_data"),
   mkState
     (Some (Scenario.payload "delete" (PList [Scenario.auth_params; Scenario.method_params])))
     [(INFO, Headline [Starting (PStr "delete"); On (PStr "Shot"); ByScript (PStr "toolkit")]);
      (WARNING, FaultRaised "Fault" 102 "Not found")]
     false
     [Call "delete" Scenario.method_params]).
Proof.
  apply (fault_reply_raises_NameError
           (Scenario.env 200 Scenario.upstream_headers "{}") _ Scenario.idle
           (Scenario.payload "delete" (PList [Scenario.auth_params; Scenario.method_params]))
           (PStr "delete") Scenario.auth_params Scenario.method_params
           [Starting (PStr "delete"); On (PStr "Shot"); ByScript (PStr "toolkit")]
           (Some (PStr "Shot")) "delete" Scenario.delete "Fault" 102 "Not found").
  - repeat split; vm_compute; reflexivity.
  - vm_compute; reflexivity.
  - reflexivity.
Defined.

(** ** C2: an upstream failure during the Two-Phase protocol *)

(** C2 (as the code has it).  When the generator of a Two-Phase
    handler has yielded its override and the buffered [passthrough] of
    line 174 raises, the [except] clause of line 176 evaluates
    [sys.exc_info()] although [sys] is never imported: a NameError
    leaves [json_api], in the state the failed call left, and no
    exception is thrown into the generator. *)
Theorem upstream_failure_not_thrown_into_handler env req s payload
    method_name auth_params method_params chunks entity_type name method x k e s2 :
  envelope env req payload method_name auth_params method_params chunks entity_type ->
  lookup_method env method_name = inr (name, method) ->
  method method_params = HGenerator (GYield x k) ->
  passthrough env req (payload_obj PNone) x true false false
    (add_event (add_event (at_dispatch s payload chunks) (Call name method_params))
               (Resume (Send PNone))) = (inl e, s2) ->
  json_api env req s = (inl (NameError "sys"), s2) /\
  forall e', In (Resume (Throw e')) (trace s2) -> In (Resume (Throw e')) (trace s).
Proof.
  intros He Hm Hg Hp. split.
  - rewrite (json_api_dispatches _ _ _ _ _ _ _ _ _ He).
    rewrite (dispatch_registered env req _ _ method_params entity_type _ _ Hm).
    rewrite bind_run. unfold try_except.
    rewrite (run_method_upstream_failure _ _ _ _ _ _ _ _ _ _ Hg Hp). reflexivity.
  - intros e' Hin.
    destruct (appends_passthrough (fun ev => forall e0, ev <> Resume (Throw e0)) env req
                (fun _ _ e0 => ltac:(discriminate))
                (payload_obj PNone) x true false false
                (add_event (add_event (at_dispatch s payload chunks) (Call name method_params))
                           (Resume (Send PNone)))) as (t & Ht & Pt).
    rewrite Hp in Ht. cbn [snd] in Ht. rewrite Ht in Hin. cbn in Hin.
    rewrite !in_app_iff in Hin. cbn in Hin.
    destruct Hin as [[[Hin | [Hin | []]] | [Hin | []]] | Hin];
      try discriminate; [exact Hin |].
    rewrite List.Forall_forall in Pt. exfalso. exact (Pt _ Hin e' eq_refl).
Qed.

(** C2 with an upstream that answers 503. *)
Lemma upstream_failure_not_thrown_into_handler_witness :
  fst (json_api (Scenario.env 503 Scenario.upstream_headers "Service Unavailable")
         (Scenario.request "create" (PList [Scenario.auth_params; Scenario.method_params]))
         Scenario.idle) = inl (NameError "sys").
Proof.
  pose (E := Scenario.env 503 Scenario.upstream_headers "Service Unavailable").
  pose (R := Scenario.request "create" (PList [Scenario.auth_params; Scenario.method_params])).
  pose (P := Scenario.payload "create" (PList [Scenario.auth_params; Scenario.method_params])).
  pose (chunks := [Starting (PStr "create"); On (PStr "Shot"); ByScript (PStr "toolkit")]).
  pose (r := passthrough E R (payload_obj PNone) Scenario.override true false false
               (add_event (add_event (at_dispatch Scenario.idle P chunks)
                                     (Call "create" Scenario.method_params))
                          (Resume (Send PNone)))).
  refine (f_equal fst (proj1
    (upstream_failure_not_thrown_into_handler E R Scenario.idle P (PStr "create")
       Scenario.auth_params Scenario.method_params
       chunks (Some (PStr "Shot")) "create" Scenario.create Scenario.override _
       (match fst r with inl e => e | inr _ => KeyError end) (snd r) _ _ _ _))).
  - repeat split; vm_compute; reflexivity.
  - vm_compute; reflexivity.
  - reflexivity.
  - vm_compute; reflexivity.
Defined.

(** ** C3: an unregistered method *)

(** C3, counterexample.  The method [schema_read] is not registered
    and the upstream answers 200 with its own headers (a Content-Type
    with a charset, a Cache-Control): the response of the dispatcher
    does not carry them. *)
Lemma unknown_method_drops_upstream_headers :
  let E := Scenario.env 200 Scenario.upstream_headers "{}" in
  let R := Scenario.request "schema_read" (PList [Scenario.auth_params]) in
  lookup_method E (PStr "schema_read") = inl KeyError /\
  ~ delegates_verbatim E R Scenario.idle.
Proof.
  split; [vm_compute; reflexivity |].
  intros (up & v & Hup & Hv & Hsame).
  vm_compute in Hup. injection Hup as <-.
  vm_compute in Hv. injection Hv as <-.
  destruct Hsame as (_ & _ & Hh). vm_compute in Hh. discriminate Hh.
Qed.

(** C3 (amended).  For a well-formed envelope whose method is not
    registered, when the upstream answers 200: no handler is called; the
    one upstream call posts the re-serialised stored envelope with the
    sanitized request headers, in streaming mode; and the dispatcher
    returns a response with status 200, mimetype application/json and
    the upstream content as a stream.  The upstream's own response
    headers are not relayed. *)
Theorem unknown_method_delegated_on_200 env req s payload
    method_name auth_params method_params chunks entity_type data up :
  envelope env req payload method_name auth_params method_params chunks entity_type ->
  lookup_method env method_name = inl KeyError ->
  json_dumps env payload = Some data ->
  http_session env (posts_so_far s) (upstream_post env req data true) = inr up ->
  status_code up = 200 ->
  json_api env req s =
  (inr (PResponse (json_Response (BodyStream (content up)) 200)),
   add_event
     (add_log (at_dispatch s payload chunks) INFO
              (PassingThroughUnknown method_name (debug_detail env method_params)))
     (Post (upstream_post env req data true))).
Proof.
  intros He Hm Hj Hup Hst. rewrite (json_api_dispatches _ _ _ _ _ _ _ _ _ He).
  destruct He as (_ & Hd & _ & _).
  unfold dispatch. rewrite Hm. rewrite bind_run. cbn [log_record].
  erewrite passthrough_default; [| reflexivity | exact Hd | reflexivity | exact Hj].
  change (posts_so_far _) with (posts_so_far s). rewrite Hup.
  unfold passthrough_response. rewrite Hst. reflexivity.
Qed.

(** C3 (amended) at [schema_read]. *)
Lemma unknown_method_delegated_on_200_witness :
  fst (json_api (Scenario.env 200 Scenario.upstream_headers "{}")
         (Scenario.request "schema_read" (PList [Scenario.auth_params]))
         Scenario.idle) =
  inr (PResponse (mkResponse (BodyStream "{}") 200 (Some "application/json") [] false)).
Proof.
  pose (E := Scenario.env 200 Scenario.upstream_headers "{}").
  pose (P := Scenario.payload "schema_read" (PList [Scenario.auth_params])).
  refine (f_equal fst
    (unknown_method_delegated_on_200 E
       (Scenario.request "schema_read" (PList [Scenario.auth_params])) Scenario.idle
       P (PStr "schema_read") Scenario.auth_params (PDict [])
       [Starting (PStr "schema_read"); ByScript (PStr "toolkit")] (Some PNone)
       (Scenario.text P) (mkHttpResponse 200 Scenario.upstream_headers "{}") _ _ _ _ _)).
  - repeat split; vm_compute; reflexivity.
  - vm_compute; reflexivity.
  - vm_compute; reflexivity.
  - reflexivity.
  - reflexivity.
Defined.

(** On the same path with an upstream status other than 200, the
    exception that line 68 raises leaves [json_api] from line 158: it is
    raised outside the [try] of line 162. *)
Lemma unknown_method_non_200_escapes env req s payload
    method_name auth_params method_params chunks entity_type data up :
  envelope env req payload method_name auth_params method_params chunks entity_type ->
  lookup_method env method_name = inl KeyError ->
  json_dumps env payload = Some data ->
  http_session env (posts_so_far s) (upstream_post env req data true) = inr up ->
  status_code up <> 200 ->
  fst (json_api env req s) =
  inl (ReturnPassthroughError
         [PResponse (json_Response (BodyStream (content up)) (status_code up))]).
Proof.
  intros He Hm Hj Hup Hst. rewrite (json_api_dispatches _ _ _ _ _ _ _ _ _ He).
  destruct He as (_ & Hd & _ & _).
  unfold dispatch. rewrite Hm. rewrite bind_run. cbn [log_record].
  erewrite passthrough_default; [| reflexivity | exact Hd | reflexivity | exact Hj].
  change (posts_so_far _) with (posts_so_far s). rewrite Hup.
  unfold passthrough_response. apply Z.eqb_neq in Hst. rewrite Hst. reflexivity.
Qed.

(** ** C4: a malformed envelope *)

(** C4, counterexample.  The body decodes to a map whose [params] is
    the empty map, not a sequence: the request is not rejected, it is
    delegated upstream. *)
Lemma params_map_not_rejected :
  let E := Scenario.env 200 Scenario.upstream_headers "{}" in
  let R := Scenario.request "schema_read" (PDict []) in
  (exists d, json_loads E (request_data R) = Some (PDict d) /\
             dict_get d (KStr "params") = Some (PDict [])) /\
  ~ rejected_as_malformed E R Scenario.idle.
Proof.
  split.
  - eexists. split; vm_compute; reflexivity.
  - intros [H _]. vm_compute in H. discriminate H.
Qed.

(** C4 (amended).  When the body decodes to a JSON value that is not a
    map, or to a map without the key [method_name] or without the key
    [params], the dispatcher answers status 400 with an empty body and
    no headers; it calls no handler and makes no upstream call (the
    trace is unchanged), and only [g.api3_payload] is assigned. *)
Theorem malformed_envelope_rejected env req s payload :
  json_loads env (request_data req) = Some payload ->
  is_dict payload = false \/
  getitem payload (KStr "method_name") = inl KeyError \/
  getitem payload (KStr "params") = inl KeyError ->
  json_api env req s = (inr malformed, store_payload s payload).
Proof.
  intros Hl H. unfold json_api, json_loads_M. rewrite bind_run, Hl. cbn [ret].
  rewrite bind_run. cbn [set_g_api3_payload].
  destruct (is_dict payload) eqn:Hd; cbn [negb]; [| reflexivity].
  destruct H as [H | [H | H]]; [discriminate H | |]; unfold read_envelope.
  - rewrite H. reflexivity.
  - rewrite H. destruct payload as [| | | | | d |]; try discriminate Hd.
    cbn [getitem]. destruct (dict_get d (KStr "method_name")); reflexivity.
Qed.

(** C4 (amended) at a map without [method_name]. *)
Lemma malformed_envelope_rejected_witness :
  let R := mkRequest "POST" "/api3/json" [] Scenario.request_headers
             (Scenario.text (PDict [(KStr "params", PList [])])) in
  json_api (Scenario.env 200 Scenario.upstream_headers "{}") R Scenario.idle =
  (inr (PList [PStr EmptyString; PInt 400; PList []]),
   Scenario.stored (PDict [(KStr "params", PList [])])).
Proof.
  refine (malformed_envelope_rejected
            (Scenario.env 200 Scenario.upstream_headers "{}") _ Scenario.idle
            (PDict [(KStr "params", PList [])]) _ _).
  - vm_compute; reflexivity.
  - right; left. reflexivity.
Defined.

(** A body that does not decode leaves line 111 with the ValueError of
    [json.loads]. *)
Lemma undecodable_body_raises_ValueError env req s :
  json_loads env (request_data req) = None ->
  json_api env req s = (inl ValueError, s).
Proof.
  intros Hl. unfold json_api, json_loads_M. rewrite bind_run, Hl. reflexivity.
Qed.

(** [params] that is a number: line 119 raises a TypeError, which
    line 121 does not catch. *)
Example params_number_raises_TypeError :
  fst (json_api (Scenario.env 200 Scenario.upstream_headers "{}")
         (Scenario.request "read" (PInt 5)) Scenario.idle) = inl TypeError.
Proof. vm_compute. reflexivity. Qed.

(** ** C5: the upstream call of a Two-Phase handler *)

(** C5, counterexample.  The envelope has a single slot in [params],
    the auth params: the override of the handler is written into that
    slot, so the upstream call does not carry the auth params of the
    request. *)
Lemma override_lands_in_auth_slot :
  let E := Scenario.env 200 Scenario.upstream_headers "{}" in
  let R := Scenario.request "create" (PList [Scenario.auth_params]) in
  ~ override_sent_in_method_params E R Scenario.idle Scenario.override.
Proof.
  intros E R (payload & mn & auth & mp & rq & sent & Hl & Hr & Hp & Hs & Hr2).
  vm_compute in Hl. injection Hl as <-.
  vm_compute in Hr. injection Hr as <- <- <-.
  vm_compute in Hp. injection Hp as <-.
  vm_compute in Hs. injection Hs as <-.
  vm_compute in Hr2. discriminate Hr2.
Qed.

(** C5 (amended).  When a Two-Phase handler yields an override other
    than [None] and [params] of the stored envelope is a non-empty list,
    the driver posts, in buffered mode, the envelope with only the last
    slot of [params] replaced by the override (for a two-slot [params]
    that is the method-params slot, auth params kept); and when the
    upstream answers 200 with a body that decodes to a value [v] free
    of [exception], the next thing that happens to the generator is
    [send(v)]. *)
Theorem two_phase_upstream_call env req s d method_name auth_params method_params
    chunks entity_type name method x k ps data :
  envelope env req (PDict d) method_name auth_params method_params chunks entity_type ->
  lookup_method env method_name = inr (name, method) ->
  method method_params = HGenerator (GYield x k) ->
  x <> PNone ->
  dict_get d (KStr "params") = Some (PList ps) ->
  ps <> [] ->
  json_dumps env (PDict (dict_set d (KStr "params") (PList (removelast ps ++ [x]))))
  = Some data ->
  (exists rest,
     trace (snd (json_api env req s)) =
     trace s ++ [Call name method_params; Resume (Send PNone);
                 Post (upstream_post env req data false)] ++ rest /\
     forall up v,
       http_session env (posts_so_far s) (upstream_post env req data false) = inr up ->
       status_code up = 200 ->
       json_loads env (content up) = Some v ->
       contains_str v "exception" = inr false ->
       exists rest', rest = Resume (Send v) :: rest') /\
  (forall auth mp, ps = [auth; mp] -> removelast ps ++ [x] = [auth; x]).
Proof.
  intros He Hm Hg Hx Hd Hne Hj. split; [| intros auth mp ->; reflexivity].
  rewrite (json_api_dispatches _ _ _ _ _ _ _ _ _ He).
  assert (Hc : copy_with_override (PDict d) x =
               inr (PDict (dict_set d (KStr "params") (PList (removelast ps ++ [x]))))).
  { rewrite copy_with_override_given by exact Hx.
    apply (substitute_params_list d ps); [exact Hd | apply set_last_spec; exact Hne]. }
  pose proof (run_method_posted env req name method method_params x k
                (at_dispatch s (PDict d) chunks) (PDict d)
                (PDict (dict_set d (KStr "params") (PList (removelast ps ++ [x]))))
                data Hg eq_refl eq_refl Hc Hj) as Hrun.
  change (posts_so_far (at_dispatch s (PDict d) chunks)) with (posts_so_far s) in Hrun.
  destruct (dispatch_continues env req method_name method_params entity_type name method
              _ _ _ Hm Hrun) as (rest & Hrest).
  { destruct (match http_session env (posts_so_far s) _ with inl e => _ | inr up => _ end)
      as [e|v].
    - apply appends_raise.
    - apply appends_bind; [apply appends_resume; auto |]. intros [r k'].
      apply appends_bind; [apply appends_extra_yields; auto | intros; apply appends_ret]. }
  exists rest. split.
  - rewrite Hrest. cbn [trace add_event at_dispatch add_log store_payload].
    rewrite <- !app_assoc. reflexivity.
  - intros up v Hup Hst Hl Hex.
    rewrite Hup, (passthrough_response_data _ _ _ Hst Hl Hex) in Hrun.
    destruct (dispatch_continues env req method_name method_params entity_type name method
                (at_dispatch s (PDict d) chunks)
                (let* (result, k') :=
                   match k (Send v) with
                   | GYield r k' => ret (r, k')
                   | GYieldTuple xs k' => ret (PList xs, k')
                   | GStop => raise StopIteration
                   | GRaise e => raise e
                   end in
                 extra_yields (k' (Send PNone)) ;;; ret result)
                (add_event
                   (add_event
                      (add_event (add_event (at_dispatch s (PDict d) chunks)
                                            (Call name method_params))
                                 (Resume (Send PNone)))
                      (Post (upstream_post env req data false)))
                   (Resume (Send v)))
                Hm) as (rest' & Hrest').
    { rewrite Hrun. reflexivity. }
    { apply appends_bind.
      - destruct (k (Send v));
          [apply appends_raise | apply appends_raise | apply appends_ret | apply appends_ret].
      - intros [r k']. apply appends_bind; [apply appends_extra_yields; auto |].
        intros; apply appends_ret. }
    exists rest'. rewrite Hrest' in Hrest. cbn [trace add_event] in Hrest.
    rewrite <- !app_assoc in Hrest. repeat apply app_inv_head in Hrest.
    symmetry. exact Hrest.
Qed.

(** C5 (amended) at the handler of [create], with two slots. *)
Lemma two_phase_upstream_call_witness :
  let E := Scenario.env 200 Scenario.upstream_headers "{}" in
  let R := Scenario.request "create" (PList [Scenario.auth_params; Scenario.method_params]) in
  exists rest,
    trace (snd (json_api E R Scenario.idle)) =
    [Call "create" Scenario.method_params; Resume (Send PNone);
     Post (upstream_post E R
             (Scenario.text (Scenario.payload "create"
                               (PList [Scenario.auth_params; Scenario.override])))
             false);
     Resume (Send (PDict []))] ++ rest.
Proof.
  intros E R.
  destruct (proj1 (two_phase_upstream_call E R Scenario.idle
              [(KStr "method_name", PStr "create");
               (KStr "params", PList [Scenario.auth_params; Scenario.method_params])]
              (PStr "create") Scenario.auth_params Scenario.method_params
              [Starting (PStr "create"); On (PStr "Shot"); ByScript (PStr "toolkit")]
              (Some (PStr "Shot")) "create" Scenario.create Scenario.override _
              [Scenario.auth_params; Scenario.method_params]
              (Scenario.text (Scenario.payload "create"
                                (PList [Scenario.auth_params; Scenario.override])))
              ltac:(repeat split; vm_compute; reflexivity)
              ltac:(vm_compute; reflexivity)
              eq_refl
              ltac:(discriminate)
              eq_refl
              ltac:(discriminate)
              ltac:(vm_compute; reflexivity)))
    as (rest & Ht & Hres).
  destruct (Hres (mkHttpResponse 200 Scenario.upstream_headers "{}") (PDict [])
              eq_refl eq_refl ltac:(vm_compute; reflexivity) eq_refl) as (rest' & ->).
  exists rest'. exact Ht.
Defined.

(** ** C6: the buffered mode on a 200 answer *)

(** C6, counterexample.  The upstream body decodes to
    [{exception: false}], which does not contain [exception: true], and
    yet an exception-sensitive call raises the return-this-response
    signal instead of returning the value. *)
Lemma exception_false_still_relayed :
  let body := Scenario.text (PDict [(KStr "exception", PBool false)]) in
  let E := Scenario.env 200 Scenario.upstream_headers body in
  let R := Scenario.request "create" (PList [Scenario.auth_params; Scenario.method_params]) in
  let s := Scenario.stored
             (Scenario.payload "create" (PList [Scenario.auth_params; Scenario.method_params])) in
  json_loads E body = Some (PDict [(KStr "exception", PBool false)]) /\
  fst (passthrough E R (payload_obj PNone) Scenario.override true false false s) <>
  buffered_outcome true body (PDict [(KStr "exception", PBool false)]).
Proof.
  split; [vm_compute; reflexivity |]. vm_compute. discriminate.
Qed.

(** C6 (amended).  For a buffered call answered 200 with a body that
    decodes to [v]: a caller that is not exception-sensitive gets [v];
    an exception-sensitive caller, when [v] is a map, gets the
    return-this-exact-response signal (the upstream text, 200,
    Content-Type application/json) if [v] has the key [exception],
    whatever its value, and [v] otherwise. *)
Theorem buffered_response_on_200 env up v :
  status_code up = 200 ->
  json_loads env (content up) = Some v ->
  passthrough_response env false false false up = inr v /\
  forall d, v = PDict d ->
    passthrough_response env true false false up =
    match dict_get d (KStr "exception") with
    | Some _ => inl (ReturnResponse [PStr (content up); PInt 200; json_content_type])
    | None => inr v
    end.
Proof.
  intros Hst Hl. unfold passthrough_response. rewrite Hst, Hl. cbn. split; [reflexivity |].
  intros d ->. cbn. destruct (dict_get d (KStr "exception")); reflexivity.
Qed.

(** C6 (amended) at the body [{exception: false}]. *)
Lemma buffered_response_on_200_witness :
  let body := Scenario.text (PDict [(KStr "exception", PBool false)]) in
  let E := Scenario.env 200 Scenario.upstream_headers body in
  passthrough_response E true false false
    (mkHttpResponse 200 Scenario.upstream_headers body) =
  inl (ReturnResponse [PStr body; PInt 200; json_content_type]).
Proof.
  intros body E.
  refine (proj2 (buffered_response_on_200 E (mkHttpResponse 200 Scenario.upstream_headers body)
                   (PDict [(KStr "exception", PBool false)]) _ _) _ eq_refl).
  - reflexivity.
  - vm_compute; reflexivity.
Defined.

(** ** C7: forwarded headers *)

(** C7, counterexample.  An upstream response that carries a [Host]
    header: the binary proxy relays it. *)
Lemma proxy_relays_upstream_Host :
  let E := Scenario.env 200 [("Content-Type", "image/png"); ("Host", "shotgun.example.com")]
             "bytes" in
  ~ relays_sanitized_headers E Scenario.upload Scenario.idle.
Proof.
  intros E H.
  specialize (H (mkResponse (BodyStream "bytes") 200 None
                   [("Content-Type", "image/png"); ("Host", "shotgun.example.com")] true)
                eq_refl "Host" "shotgun.example.com").
  destruct H as [H _]; [right; left; reflexivity |]. apply H. reflexivity.
Qed.

(** C7 (amended).  Every request that [json_api], [passthrough] or
    [proxy] sends upstream carries neither [Host] nor a hop-by-hop
    header; the response that [proxy] relays carries no hop-by-hop
    header ([Host] is not filtered there). *)
Theorem forwarded_headers_sanitized env req :
  appends sanitized_post (json_api env req) /\
  (forall payload params raise_exceptions stream final,
      appends sanitized_post
        (passthrough env req payload params raise_exceptions stream final)) /\
  appends sanitized_post (proxy env req) /\
  (forall s r, fst (proxy env req s) = inr (PResponse r) -> no_hop_by_hop (headers r)).
Proof.
  assert (Hpost : forall data stream, sanitized_post (Post (upstream_post env req data stream))).
  { intros. apply sanitized_request_headers. }
  repeat split.
  - apply appends_json_api; [exact Hpost | exact (fun _ _ => I) | exact (fun _ => I)].
  - intros. apply appends_passthrough. exact Hpost.
  - apply appends_proxy. intros rq Hrq. cbn. rewrite Hrq. apply sanitized_request_headers.
  - intros s r. unfold proxy. rewrite bind_run.
    destruct (session_request env _ s) as [[e|up] s']; cbn; [discriminate |].
    intros [= <-]. cbn. intros k v H.
    apply remove_hop_by_hop_headers_In in H. tauto.
Qed.

(** C7 (amended) at an upstream response with [Connection: close]. *)
Lemma forwarded_headers_sanitized_witness :
  let E := Scenario.env 200 [("Content-Type", "image/png"); ("Connection", "close")] "bytes" in
  no_hop_by_hop [("Content-Type", "image/png")].
Proof.
  intros E.
  refine (proj2 (proj2 (proj2 (forwarded_headers_sanitized E Scenario.upload))) Scenario.idle
            (mkResponse (BodyStream "bytes") 200 None [("Content-Type", "image/png")] true) _).
  reflexivity.
Defined.

(** ** C8: the completion log line *)

(** C8, counterexample.  A request for an unregistered method is
    answered by delegation, and neither is the completion line logged
    nor the access-log line suppressed. *)
Lemma unknown_method_no_completion_line :
  let E := Scenario.env 200 Scenario.upstream_headers "{}" in
  let R := Scenario.request "schema_read"
             (PList [Scenario.auth_params; Scenario.method_params]) in
  (exists r, fst (json_api E R Scenario.idle) = inr (PResponse r)) /\
  ~ completion_logged (snd (json_api E R Scenario.idle)).
Proof.
  split.
  - eexists. vm_compute. reflexivity.
  - intros [H _]. vm_compute in H. discriminate H.
Qed.

(** C8 (amended).  Whenever the dispatcher returns a response for a
    registered method (from a value, a return-this-response signal or a
    Passthrough signal), its last log record is the completion line:
    with the count [N] and the entity type when the raw result is a map
    whose [entities] has [N > 0] items, without count otherwise; and
    [skip_http_log] is set. *)
Theorem completion_line_for_registered_method env req s payload
    method_name auth_params method_params chunks entity_type name method v s' :
  envelope env req payload method_name auth_params method_params chunks entity_type ->
  lookup_method env method_name = inr (name, method) ->
  json_api env req s = (inr v, s') ->
  exists result s1,
    try_except (run_method env req name method method_params)
               (on_exception env req method_name method_params)
               (at_dispatch s payload chunks) = (inr result, s1) /\
    s' = store_skip_http_log
           (add_log s1 INFO (Returned (completion_count entity_type result))) true /\
    completion_logged s'.
Proof.
  intros He Hm. rewrite (json_api_dispatches _ _ _ _ _ _ _ _ _ He).
  rewrite (dispatch_registered env req _ _ method_params entity_type _ _ Hm).
  rewrite bind_run.
  destruct (try_except _ _ _) as [[e|result] s1]; [discriminate |].
  intros Hf. apply finish_returns in Hf. exists result, s1.
  split; [reflexivity |]. split; [exact Hf |]. subst s'. split; [reflexivity |].
  eexists. cbn [log store_skip_http_log add_log]. apply last_snoc.
Qed.

(** C8 (amended) at the handler of [read], which returns two
    entities. *)
Lemma completion_line_for_registered_method_witness :
  completion_logged
    (snd (json_api (Scenario.env 200 Scenario.upstream_headers "{}")
            (Scenario.request "read" (PList [Scenario.auth_params; Scenario.method_params]))
            Scenario.idle)).
Proof.
  pose (E := Scenario.env 200 Scenario.upstream_headers "{}").
  pose (R := Scenario.request "read" (PList [Scenario.auth_params; Scenario.method_params])).
  destruct (completion_line_for_registered_method E R Scenario.idle
              (Scenario.payload "read" (PList [Scenario.auth_params; Scenario.method_params]))
              (PStr "read") Scenario.auth_params Scenario.method_params
              [Starting (PStr "read"); On (PStr "Shot"); ByScript (PStr "toolkit")]
              (Some (PStr "Shot")) "read" Scenario.read
              (match fst (json_api E R Scenario.idle) with inr v => v | inl _ => PNone end)
              (snd (json_api E R Scenario.idle)))
    as (result & s1 & _ & _ & H).
  - repeat split; vm_compute; reflexivity.
  - vm_compute; reflexivity.
  - vm_compute; reflexivity.
  - exact H.
Defined.

(** ** C9: extra yields *)

(** C9 (as the code has it).  A Two-Phase handler yields [x], is
    resumed with the decoded upstream result [v], yields its result [r]
    and then, as an extra value, a tuple that does not have exactly one
    item.  Line 180 formats the message with ['...%r' % x]: the tuple is
    taken for the arguments of the format and a TypeError is raised
    before [log.warning] is called.  No [except] clause names it, so it
    leaves [json_api]: the extra value is not logged, there is no
    completion line, the flag is untouched and nothing is returned. *)
Theorem tuple_extra_yield_raises_TypeError env req s payload method_name auth_params
    method_params chunks entity_type name method x k sent data up v r k' xs k'' :
  envelope env req payload method_name auth_params method_params chunks entity_type ->
  lookup_method env method_name = inr (name, method) ->
  method method_params = HGenerator (GYield x k) ->
  copy_with_override payload x = inr sent ->
  json_dumps env sent = Some data ->
  http_session env (posts_so_far s) (upstream_post env req data false) = inr up ->
  status_code up = 200 ->
  json_loads env (content up) = Some v ->
  contains_str v "exception" = inr false ->
  k (Send v) = GYield r k' ->
  k' (Send PNone) = GYieldTuple xs k'' ->
  length xs <> 1%nat ->
  fst (json_api env req s) = inl TypeError /\
  log (snd (json_api env req s)) = log s ++ [(INFO, Headline chunks)] /\
  skip_http_log (snd (json_api env req s)) = skip_http_log s /\
  trace (snd (json_api env req s)) =
  trace s ++ [Call name method_params; Resume (Send PNone);
              Post (upstream_post env req data false); Resume (Send v);
              Resume (Send PNone)].
Proof.
  intros He Hm Hg Hc Hj Hup Hst Hl Hex Hk Hk' Hlen.
  rewrite (json_api_dispatches _ _ _ _ _ _ _ _ _ He).
  assert (Hs : is_dict sent = true).
  { destruct He as (_ & Hdict & _). eapply copy_with_override_dict; eauto. }
  pose proof (run_method_resumed env req name method method_params x k
                (at_dispatch s payload chunks) payload sent data up v r k'
                Hg eq_refl Hs Hc Hj) as Hrun.
  change (posts_so_far (at_dispatch s payload chunks)) with (posts_so_far s) in Hrun.
  specialize (Hrun Hup Hst Hl Hex Hk).
  assert (Hloop : forall s0, extra_yields (k' (Send PNone)) s0 =
                             (inl TypeError, add_event s0 (Resume (Send PNone)))).
  { intros s0. rewrite Hk'. cbn [extra_yields]. rewrite bind_run. cbn [emit].
    destruct xs as [| y [| z xs]]; try reflexivity. cbn in Hlen. congruence. }
  rewrite bind_run, Hloop in Hrun.
  rewrite (dispatch_registered env req _ _ method_params entity_type _ _ Hm).
  rewrite bind_run. unfold try_except. rewrite Hrun. cbn [on_exception raise fst snd].
  unfold add_event, at_dispatch, add_log, store_payload.
  cbn [g_api3_payload log skip_http_log trace].
  repeat split. repeat rewrite <- app_assoc. reflexivity.
Qed.

(** C9 at a handler that yields the tuple [(1, 2)] after its result. *)
Lemma tuple_extra_yield_raises_TypeError_witness :
  let h : handler := fun _ =>
    HGenerator
      (GYield Scenario.override (fun r =>
         match r with
         | Send results =>
             GYield (PDict [(KStr "results", results)]) (fun _ =>
               GYieldTuple [PInt 1; PInt 2] (fun _ => GStop))
         | Throw e => GRaise e
         end)) in
  let E := api3_method (Scenario.env 200 Scenario.upstream_headers "{}") "update" h in
  let R := Scenario.request "update" (PList [Scenario.auth_params; Scenario.method_params]) in
  let sent := Scenario.payload "update" (PList [Scenario.auth_params; Scenario.override]) in
  fst (json_api E R Scenario.idle) = inl TypeError /\
  log (snd (json_api E R Scenario.idle)) =
  log Scenario.idle ++
  [(INFO, Headline [Starting (PStr "update"); On (PStr "Shot"); ByScript (PStr "toolkit")])] /\
  skip_http_log (snd (json_api E R Scenario.idle)) = skip_http_log Scenario.idle /\
  trace (snd (json_api E R Scenario.idle)) =
  trace Scenario.idle ++
  [Call "update" Scenario.method_params; Resume (Send PNone);
   Post (upstream_post E R (Scenario.text sent) false); Resume (Send (PDict []));
   Resume (Send PNone)].
Proof.
  intros h E R sent.
  refine (tuple_extra_yield_raises_TypeError E R Scenario.idle
            (Scenario.payload "update" (PList [Scenario.auth_params; Scenario.method_params]))
            (PStr "update") Scenario.auth_params Scenario.method_params
            [Starting (PStr "update"); On (PStr "Shot"); ByScript (PStr "toolkit")]
            (Some (PStr "Shot")) "update" h Scenario.override _
            sent (Scenario.text sent)
            (mkHttpResponse 200 Scenario.upstream_headers "{}") (PDict [])
            (PDict [(KStr "results", PDict [])]) _ [PInt 1; PInt 2] (fun _ => GStop)
            _ _ _ _ _ _ _ _ _ _ _ _).
  - repeat split; vm_compute; reflexivity.
  - vm_compute; reflexivity.
  - reflexivity.
  - reflexivity.
  - vm_compute; reflexivity.
  - reflexivity.
  - reflexivity.
  - vm_compute; reflexivity.
  - reflexivity.
  - reflexivity.
  - reflexivity.
  - cbn. discriminate.
Defined.

(** The handler of [create] yields its override and its result only:
    nothing is logged at warning level. *)
Example result_of_first_resumption_not_logged :
  log (snd (json_api (Scenario.env 200 Scenario.upstream_headers "{}")
              (Scenario.request "create"
                 (PList [Scenario.auth_params; Scenario.method_params]))
              Scenario.idle)) =
  [(INFO, Headline [Starting (PStr "create"); On (PStr "Shot"); ByScript (PStr "toolkit")]);
   (INFO, Returned None)].
Proof. vm_compute. reflexivity. Qed.

(** ** C10: the stored envelope *)

(** C10, counterexample.  A call with an override that is handed the
    stored envelope itself as [payload]: no copy is made and the stored
    envelope is changed. *)
Lemma explicit_payload_mutates_stored_envelope :
  let E := Scenario.env 200 Scenario.upstream_headers "{}" in
  let R := Scenario.request "create" (PList [Scenario.auth_params; Scenario.method_params]) in
  let s := Scenario.stored
             (Scenario.payload "create" (PList [Scenario.auth_params; Scenario.method_params])) in
  g_api3_payload
    (snd (passthrough E R payload_g_api3_payload Scenario.override true false false s)) <>
  g_api3_payload s.
Proof. vm_compute. discriminate. Qed.

(** C10 (amended).  For a call with an override and no explicit
    payload, the stored envelope is the same after the call; what is
    posted is its copy with the override in the last slot of [params],
    so that the first slot is kept when [params] has at least two items
    and is overwritten when it has one. *)
Theorem default_payload_copied_before_override env req params
    raise_exceptions stream final s stored :
  g_api3_payload s = Some stored ->
  params <> PNone ->
  g_api3_payload
    (snd (passthrough env req (payload_obj PNone) params raise_exceptions stream final s))
  = Some stored /\
  forall d ps data,
    stored = PDict d ->
    dict_get d (KStr "params") = Some (PList ps) ->
    ps <> [] ->
    json_dumps env (PDict (dict_set d (KStr "params") (PList (removelast ps ++ [params]))))
    = Some data ->
    trace (snd (passthrough env req (payload_obj PNone) params
                  raise_exceptions stream final s))
    = trace s ++ [Post (upstream_post env req data stream)] /\
    ((2 <= length ps)%nat -> nth_error (removelast ps ++ [params]) 0 = nth_error ps 0) /\
    (length ps = 1%nat -> removelast ps ++ [params] = [params]).
Proof.
  intros Hg Hp. split.
  - rewrite keeps_g_passthrough. exact Hg.
  - intros d ps data -> Hd Hne Hj. repeat split.
    + erewrite passthrough_default; [reflexivity | exact Hg | | | exact Hj].
      * reflexivity.
      * rewrite copy_with_override_given by exact Hp.
        apply (substitute_params_list d ps); [exact Hd | apply set_last_spec; exact Hne].
    + intros Hlen. destruct ps as [| a [| b ps]]; cbn in Hlen; try lia. reflexivity.
    + intros Hlen. destruct ps as [| a [| b ps]]; cbn in Hlen; try lia. reflexivity.
Qed.

(** C10 (amended) at the override of the handler of [create]. *)
Lemma default_payload_copied_before_override_witness :
  let E := Scenario.env 200 Scenario.upstream_headers "{}" in
  let R := Scenario.request "create" (PList [Scenario.auth_params; Scenario.method_params]) in
  let P := Scenario.payload "create" (PList [Scenario.auth_params; Scenario.method_params]) in
  g_api3_payload
    (snd (passthrough E R (payload_obj PNone) Scenario.override true false false
            (Scenario.stored P))) = Some P.
Proof.
  intros E R P.
  refine (proj1 (default_payload_copied_before_override E R Scenario.override
                   true false false (Scenario.stored P) P _ _)).
  - reflexivity.
  - discriminate.
Defined.

(** * Further properties of the module *)

(** ** Headers, the proxy and the registry *)

Lemma dict_of_headers_lookup hs k :
  dict_of_headers hs !! k = last_value k hs.
Proof.
  unfold dict_of_headers. induction hs as [| [k' v] hs IH]; [reflexivity |].
  cbn [rev last_value]. rewrite list_to_map_app, lookup_union, IH.
  change (list_to_map [(k', v)]) with (<[k' := v]> (∅ : gmap string string)).
  rewrite lookup_insert, lookup_empty.
  destruct (String.eqb_spec k' k) as [-> | Hne].
  - rewrite decide_True by reflexivity. destruct (last_value k hs); reflexivity.
  - rewrite decide_False by exact Hne. destruct (last_value k hs); reflexivity.
Qed.

Lemma last_value_filter (p : string -> bool) k hs :
  last_value k (List.filter (fun kv => p (fst kv)) hs) =
  if p k then last_value k hs else None.
Proof.
  induction hs as [| [k' v] hs IH]; cbn [List.filter last_value fst].
  - destruct (p k); reflexivity.
  - destruct (p k') eqn:Hk'; cbn [last_value]; rewrite IH.
    + destruct (p k) eqn:Hk; [reflexivity |].
      destruct (String.eqb_spec k' k) as [-> | Hne]; [congruence | reflexivity].
    + destruct (p k) eqn:Hk; [| reflexivity].
      destruct (last_value k hs); [reflexivity |].
      destruct (String.eqb_spec k' k) as [-> | Hne]; [congruence | reflexivity].
Qed.

(** X1.  The header map that [passthrough] sends (lines 52-55; [proxy]
    builds the same one, lines 248-254) holds, for every header name
    that is neither [Host] nor hop-by-hop, the value of the last pair of
    the request with that name, and nothing for any other name. *)
Theorem forwarded_headers_are_the_last_values req k :
  passthrough_headers req !! k =
  if forwarded k then last_value k (request_headers req) else None.
Proof.
  unfold passthrough_headers. rewrite dict_of_headers_lookup.
  unfold remove_hop_by_hop_headers, without_host.
  rewrite (last_value_filter (fun k => negb (is_hop_by_hop_header k))).
  rewrite (last_value_filter (fun k => negb (String.eqb (lower k) "host"))).
  unfold forwarded.
  destruct (String.eqb (lower k) "host"), (is_hop_by_hop_header k); reflexivity.
Qed.

(** X2.  [proxy] (lines 242-266) makes one streaming call with the
    method, path, query arguments and body of the request, and relays
    whatever the upstream answers, error statuses included: the status
    is the upstream's, the body is streamed with [direct_passthrough],
    and the headers are exactly the upstream's headers that are not
    hop-by-hop. *)
Theorem proxy_relays_any_status env req s up :
  http_session env (posts_so_far s) (proxy_request env req) = inr up ->
  exists r,
    proxy env req s = (inr (PResponse r), add_event s (Post (proxy_request env req))) /\
    status r = status_code up /\
    response r = BodyStream (content up) /\
    direct_passthrough r = true /\
    forall k v, In (k, v) (headers r) <->
                In (k, v) (response_headers up) /\ is_hop_by_hop_header k = false.
Proof.
  intros Hup. eexists. split.
  - unfold proxy. rewrite bind_run. unfold session_request. rewrite bind_run.
    cbn [emit]. fold (proxy_request env req). rewrite Hup. reflexivity.
  - cbn [status response direct_passthrough headers].
    split; [reflexivity |]. split; [reflexivity |]. split; [reflexivity |].
    intros k v. unfold remove_hop_by_hop_headers. rewrite filter_In. cbn [fst].
    destruct (is_hop_by_hop_header k); cbn [negb]; intuition congruence.
Qed.

(** X2 at work on an upstream that answers 404. *)
Lemma proxy_relays_any_status_witness :
  let E := Scenario.env 404 [("Content-Type", "text/html"); ("Connection", "close")]
             "Not Found" in
  exists r,
    fst (proxy E Scenario.upload Scenario.idle) = inr (PResponse r) /\ status r = 404.
Proof.
  intros E.
  destruct (proxy_relays_any_status E Scenario.upload Scenario.idle
              (mkHttpResponse 404 [("Content-Type", "text/html"); ("Connection", "close")]
                              "Not Found") eq_refl)
    as (r & Hr & Hst & _).
  exists r. rewrite Hr. split; [reflexivity | exact Hst].
Defined.

(** X3.  After [api3_method] (lines 271-274) has registered [func]
    under [name], line 151 finds [func] for the method name [name],
    whatever was registered under that name before, and finds what it
    found before for every other name. *)
Theorem api3_method_lookup env name func n :
  lookup_method (api3_method env name func) (PStr n) =
  if String.eqb name n then inr (name, func) else lookup_method env (PStr n).
Proof.
  unfold lookup_method, api3_method. cbn [_api3_methods].
  rewrite lookup_insert. destruct (String.eqb_spec name n) as [-> | Hne].
  - rewrite decide_True by reflexivity. reflexivity.
  - rewrite decide_False by exact Hne. reflexivity.
Qed.

Lemma run_method_outcome env req name method method_params s :
  run_method env req name method method_params s =
  method_outcome env req (method method_params) (add_event s (Call name method_params)).
Proof. reflexivity. Qed.

Lemma appends_method_outcome (P : event -> Prop) env req r :
  (forall data stream, P (Post (upstream_post env req data stream))) ->
  (forall r, P (Resume r)) ->
  appends P (method_outcome env req r).
Proof.
  intros Hpost Hres. destruct r as [v | e | c]; cbn [method_outcome].
  - apply appends_ret.
  - apply appends_raise.
  - apply appends_bind; [apply appends_resume, Hres |]. intros [x k].
    apply appends_try_except_else.
    + apply appends_passthrough, Hpost.
    + intros; apply appends_raise.
    + intros v. apply appends_bind; [apply appends_resume, Hres |]. intros [r k'].
      apply appends_bind; [apply appends_extra_yields, Hres | intros; apply appends_ret].
Qed.

Lemma dispatch_after_call (P : event -> Prop) env req method_name method_params entity_type
    name method s :
  lookup_method env method_name = inr (name, method) ->
  (forall data stream, P (Post (upstream_post env req data stream))) ->
  (forall r, P (Resume r)) ->
  exists t,
    trace (snd (dispatch env req method_name method_params entity_type s)) =
    trace s ++ Call name method_params :: t /\ Forall P t.
Proof.
  intros Hm Hpost Hres.
  rewrite (dispatch_registered env req _ _ method_params entity_type _ _ Hm).
  assert (Ha : appends P
                 (let* result :=
                    try_except (method_outcome env req (method method_params))
                               (on_exception env req method_name method_params) in
                  finish env entity_type result)).
  { apply appends_bind.
    - apply appends_try_except; [apply appends_method_outcome; assumption |].
      intros e. apply appends_on_exception, Hpost.
    - intros r. apply appends_finish. }
  destruct (Ha (add_event s (Call name method_params))) as (t & Ht & Pt).
  exists t. split; [| exact Pt].
  cbn [trace add_event] in Ht. rewrite <- app_assoc in Ht. exact Ht.
Qed.

Lemma Forall_tl {A} (P : A -> Prop) (l : list A) : Forall P l -> Forall P (tl l).
Proof. intros H. destruct H; [constructor | assumption]. Qed.

Lemma dispatch_calls_once env req method_name method_params entity_type s :
  exists t,
    trace (snd (dispatch env req method_name method_params entity_type s)) = trace s ++ t /\
    Forall (fun e => is_call e = false) (tl t).
Proof.
  destruct (lookup_method env method_name) as [e | [name method]] eqn:Hm.
  - assert (Ha : appends (fun e => is_call e = false)
                   (dispatch env req method_name method_params entity_type)).
    { unfold dispatch. rewrite Hm. destruct e; try apply appends_raise.
      apply appends_bind; [apply appends_same; reflexivity |].
      intros _. apply appends_passthrough. reflexivity. }
    destruct (Ha s) as (t & Ht & Pt). exists t. split; [exact Ht | apply Forall_tl, Pt].
  - destruct (dispatch_after_call (fun e => is_call e = false) env req method_name
                method_params entity_type name method s Hm) as (t & Ht & Pt);
      try reflexivity.
    exists (Call name method_params :: t). split; assumption.
Qed.

(** X4.  Whatever the request, [json_api] calls at most one
    registered method, and when it calls one, that call comes before any
    upstream call and any resumption of a generator: no event after the
    first one that the request adds is a call of a handler. *)
Theorem json_api_calls_at_most_one_handler env req s :
  exists t,
    trace (snd (json_api env req s)) = trace s ++ t /\
    Forall (fun e => is_call e = false) (tl t).
Proof.
  assert (Hnil : forall s' : state, trace s' = trace s ->
            exists t, trace s' = trace s ++ t /\ Forall (fun e => is_call e = false) (tl t)).
  { intros s' H. exists []. split; [rewrite app_nil_r; exact H | constructor]. }
  unfold json_api, json_loads_M. rewrite bind_run.
  destruct (json_loads env (request_data req)) as [payload|]; cbn [ret raise];
    [| apply Hnil; reflexivity].
  rewrite bind_run. cbn [set_g_api3_payload].
  destruct (is_dict payload); cbn [negb]; [| apply Hnil; reflexivity].
  destruct (read_envelope payload) as [e | [[mn auth] mp]].
  { destruct e; apply Hnil; reflexivity. }
  rewrite bind_run.
  destruct (headline mn auth mp) as [e | [chunks et]]; cbn [lift raise ret];
    [apply Hnil; reflexivity |].
  rewrite bind_run. cbn [log_record].
  apply (dispatch_calls_once env req mn mp et
           (add_log (store_payload s payload) INFO (Headline chunks))).
Qed.

(** ** The batch summary of the headline *)










(** ** Who made the request *)

Lemma existsb_snoc {A} (f : A -> bool) l x : existsb f (l ++ [x]) = existsb f l || f x.
Proof. rewrite existsb_app. cbn. rewrite orb_false_r. reflexivity. Qed.




(** ** Failures while the headline is built *)

Lemma json_api_headline_fails env req s payload method_name auth_params method_params e :
  json_loads env (request_data req) = Some payload ->
  is_dict payload = true ->
  read_envelope payload = inr (method_name, auth_params, method_params) ->
  headline method_name auth_params method_params = inl e ->
  json_api env req s = (inl e, store_payload s payload).
Proof.
  intros Hl Hd Hr Hh. unfold json_api, json_loads_M. rewrite bind_run, Hl. cbn [ret].
  rewrite bind_run. cbn [set_g_api3_payload]. rewrite Hd. cbn [negb]. rewrite Hr.
  rewrite bind_run, Hh. reflexivity.
Qed.

Lemma headline_auth_not_a_map method_name auth_params method_params :
  is_dict auth_params = false ->
  exists e, headline method_name auth_params method_params = inl e /\
            (is_dict method_params = true -> e = AttributeError).
Proof.
  intros Ha. unfold headline.
  assert (Hg : forall k, get auth_params k = inl AttributeError).
  { intros k. destruct auth_params; try reflexivity. discriminate. }
  destruct method_params as [| b | z | t | l | d | r]; rewrite ?Hg;
    try (eexists; split; [reflexivity | intros; try reflexivity; discriminate]).
  - destruct (eq_str method_name "batch").
    + destruct (batch_counts [] l); rewrite ?Hg; eexists; (split; [reflexivity | discriminate]).
    + rewrite ?Hg. eexists; (split; [reflexivity | discriminate]).
Qed.

(** X7.  Line 138.  When the auth params ([params[0]]) of a
    well-formed envelope are not a map, [json_api] raises instead of
    answering 400: the envelope is stored, nothing is logged, no handler
    is called and no upstream call is made; with method params that are
    a map the exception is the AttributeError of [auth_params.get]. *)
Theorem auth_params_not_a_map_raises env req s payload method_name auth_params method_params :
  json_loads env (request_data req) = Some payload ->
  is_dict payload = true ->
  read_envelope payload = inr (method_name, auth_params, method_params) ->
  is_dict auth_params = false ->
  exists e, json_api env req s = (inl e, store_payload s payload) /\
            (is_dict method_params = true -> e = AttributeError).
Proof.
  intros Hl Hd Hr Ha.
  destruct (headline_auth_not_a_map method_name auth_params method_params Ha) as (e & He & Hm).
  exists e. split; [| exact Hm].
  apply (json_api_headline_fails env req s payload method_name auth_params method_params e);
    assumption.
Qed.

(** X7 at work on auth params that are a string. *)
Lemma auth_params_not_a_map_raises_witness :
  let E := Scenario.env 200 Scenario.upstream_headers "{}" in
  let params := PList [PStr "toolkit"; Scenario.method_params] in
  exists e, json_api E (Scenario.request "read" params) Scenario.idle =
            (inl e, store_payload Scenario.idle (Scenario.payload "read" params)) /\
            (is_dict Scenario.method_params = true -> e = AttributeError).
Proof.
  intros E params.
  refine (auth_params_not_a_map_raises E (Scenario.request "read" params) Scenario.idle
            (Scenario.payload "read" params) (PStr "read") (PStr "toolkit")
            Scenario.method_params _ _ _ _); vm_compute; reflexivity.
Defined.

Lemma count_up_strings counts t :
  Forall (fun p => exists u, fst p = PStr u) counts ->
  exists counts', count_up counts (PStr t) = inr counts' /\
                  Forall (fun p => exists u, fst p = PStr u) counts'.
Proof.
  induction counts as [| [k n] rest IH]; intros Hs; cbn [count_up].
  - cbn. eexists; split; [reflexivity |]. constructor; [| constructor]. eexists; reflexivity.
  - inversion Hs as [| ? ? [u Hu] Hrest]; subst. cbn [fst] in Hu. subst k.
    cbn [hashable_eqb]. destruct (String.eqb u t).
    + eexists; split; [reflexivity |]. constructor; [eexists; reflexivity | exact Hrest].
    + destruct (IH Hrest) as (rest' & -> & Hs'). eexists; split; [reflexivity |].
      constructor; [eexists; reflexivity | exact Hs'].
Qed.

Lemma batch_counts_missing_request_type items : forall counts,
  Forall (fun p => exists u, fst p = PStr u) counts ->
  Forall batch_item items ->
  Exists lacks_request_type items ->
  batch_counts counts items = inl KeyError.
Proof.
  induction items as [| x items IH]; intros counts Hc Hi He; [inversion He |].
  inversion Hi as [| ? ? (d & -> & Hd) Hi']; subst. cbn [batch_counts getitem].
  destruct (dict_get d (KStr "request_type")) as [v |] eqn:Hv.
  - destruct (Hd v eq_refl) as [t ->].
    destruct (count_up_strings counts t Hc) as (counts' & -> & Hc').
    apply IH; [exact Hc' | exact Hi' |].
    inversion He as [? ? (d' & Hx & Hd') | ? ? He']; subst; [| exact He'].
    injection Hx as <-. congruence.
  - reflexivity.
Qed.

(** X8.  Line 134.  A [batch] request whose items are maps with
    string request types, one of which has no [request_type], raises
    KeyError from [json_api]: the lookup is outside the [try] of lines
    116-122, so the answer is not the 400 of a malformed envelope, and
    nothing is logged or called. *)
Theorem batch_item_without_request_type_raises env req s payload method_name auth_params items :
  json_loads env (request_data req) = Some payload ->
  is_dict payload = true ->
  read_envelope payload = inr (method_name, auth_params, PList items) ->
  eq_str method_name "batch" = true ->
  Forall batch_item items ->
  Exists lacks_request_type items ->
  json_api env req s = (inl KeyError, store_payload s payload).
Proof.
  intros Hl Hd Hr Hb Hi He.
  apply (json_api_headline_fails env req s payload method_name auth_params (PList items));
    try assumption.
  unfold headline. rewrite Hb.
  rewrite (batch_counts_missing_request_type items [] (List.Forall_nil _) Hi He). reflexivity.
Qed.

(** X8 at work on a batch whose second item has no request type. *)
Lemma batch_item_without_request_type_raises_witness :
  let E := Scenario.env 200 Scenario.upstream_headers "{}" in
  let items := [PDict [(KStr "request_type", PStr "create")]; PDict [(KStr "id", PInt 3)]] in
  let params := PList [Scenario.auth_params; PList items] in
  json_api E (Scenario.request "batch" params) Scenario.idle =
  (inl KeyError, store_payload Scenario.idle (Scenario.payload "batch" params)).
Proof.
  intros E items params.
  refine (batch_item_without_request_type_raises E (Scenario.request "batch" params)
            Scenario.idle (Scenario.payload "batch" params) (PStr "batch")
            Scenario.auth_params items _ _ _ _ _ _); try (vm_compute; reflexivity).
  - repeat constructor.
    + exists [(KStr "request_type", PStr "create")]. split; [reflexivity |].
      intros v [= <-]. exists "create". reflexivity.
    + exists [(KStr "id", PInt 3)]. split; [reflexivity |]. intros v H. discriminate H.
  - apply Exists_cons_tl, Exists_cons_hd. exists [(KStr "id", PInt 3)]. split; reflexivity.
Defined.

(** ** The upstream call of passthrough *)

Lemma quiet_ret {A} (a : A) : quiet (ret a).
Proof. intros s. auto. Qed.

Lemma quiet_raise {A} e : quiet (@raise A e).
Proof. intros s. auto. Qed.

Lemma quiet_lift {A} (r : exn + A) : quiet (lift r).
Proof. destruct r; [apply quiet_raise | apply quiet_ret]. Qed.

Lemma quiet_bind {A B} (c : M A) (k : A -> M B) :
  quiet c -> (forall a, quiet (k a)) -> quiet (bind c k).
Proof.
  intros Hc Hk s. rewrite bind_run. specialize (Hc s).
  destruct (c s) as [[e | a] s1]; cbn [snd] in *; [exact Hc |].
  destruct (Hk a s1) as (H1 & H2 & H3). destruct Hc as (G1 & G2 & G3).
  repeat split; congruence.
Qed.

Lemma quiet_get_g_api3_payload : quiet get_g_api3_payload.
Proof. intros s. unfold get_g_api3_payload. destruct (g_api3_payload s); auto. Qed.

Lemma quiet_set_g_api3_payload v : quiet (set_g_api3_payload v).
Proof. intros s. cbn. auto. Qed.

Lemma quiet_json_dumps_M env v : quiet (json_dumps_M env v).
Proof. unfold json_dumps_M. destruct (json_dumps env v); [apply quiet_ret | apply quiet_raise]. Qed.

Lemma quiet_request_body env payload : quiet (request_body env payload).
Proof.
  unfold request_body. destruct payload; try apply quiet_json_dumps_M. apply quiet_ret.
Qed.

Lemma posts_at_most_once_bind env req stream {A B} (c : M A) (k : A -> M B) :
  quiet c -> (forall a, posts_at_most_once env req stream (k a)) ->
  posts_at_most_once env req stream (bind c k).
Proof.
  intros Hc Hk s. rewrite bind_run. specialize (Hc s).
  destruct (c s) as [[e | a] s1]; cbn [snd] in *.
  - destruct Hc as (G1 & G2 & G3). auto.
  - destruct (Hk a s1) as (H1 & H2 & H3). destruct Hc as (G1 & G2 & G3).
    rewrite <- G1, <- G2, <- G3. auto.
Qed.

Lemma passthrough_frame env req payload params raise_exceptions stream final :
  posts_at_most_once env req stream
    (passthrough env req payload params raise_exceptions stream final).
Proof.
  unfold passthrough.
  apply posts_at_most_once_bind.
  { destruct payload as [v |].
    - destruct v; try apply quiet_ret.
      apply quiet_bind; [apply quiet_get_g_api3_payload | intros; apply quiet_ret].
    - apply quiet_bind; [apply quiet_get_g_api3_payload |].
      intros p. destruct p; apply quiet_ret. }
  intros [p shared]. apply posts_at_most_once_bind.
  { assert (Hq : quiet (let* p' := lift (substitute_params p params) in
                        (if shared then set_g_api3_payload p' else ret tt) ;;; ret p')).
    { apply quiet_bind; [apply quiet_lift |]. intros p'.
      apply quiet_bind; [| intros; apply quiet_ret].
      destruct shared; [apply quiet_set_g_api3_payload | apply quiet_ret]. }
    destruct params; try exact Hq. apply quiet_ret. }
  intros sent. apply posts_at_most_once_bind; [apply quiet_request_body |].
  intros data s. rewrite bind_run. unfold session_request. rewrite bind_run. cbn [emit].
  fold (upstream_post env req data stream).
  destruct (http_session env (posts_so_far s) _) as [e | up]; cbn [lift raise ret snd].
  - cbn. eauto.
  - destruct (passthrough_response env raise_exceptions stream final up); cbn; eauto.
Qed.

(** X9.  [passthrough] (lines 50-86), whatever its arguments and
    whatever it returns or raises, logs nothing, leaves
    [log_globals.skip_http_log] alone, and either does nothing to its
    collaborators or makes exactly one call: a POST on [FALLBACK_URL]
    with the sanitized headers and the [stream] flag it was given. *)
Theorem passthrough_posts_at_most_once env req payload params raise_exceptions stream final :
  posts_at_most_once env req stream
    (passthrough env req payload params raise_exceptions stream final).
Proof. apply passthrough_frame. Qed.

(** X10.  Lines 67-79.  With the default payload, when the upstream
    status is not 200, or the call is streaming or final, [passthrough]
    never looks into the upstream body: it wraps it (as a stream when
    streaming, as text otherwise) in a Response with the upstream status
    and mimetype application/json, which it returns on a 200 and raises
    inside [ReturnPassthroughError] otherwise. *)
Theorem passthrough_relays_without_decoding env req params raise_exceptions stream final
    s stored sent data up :
  g_api3_payload s = Some stored ->
  is_dict stored = true ->
  copy_with_override stored params = inr sent ->
  json_dumps env sent = Some data ->
  http_session env (posts_so_far s) (upstream_post env req data stream) = inr up ->
  status_code up <> 200 \/ (stream || final)%bool = true ->
  passthrough env req (payload_obj PNone) params raise_exceptions stream final s =
  (let r := PResponse (json_Response (relayed_body stream up) (status_code up)) in
   if Z.eqb (status_code up) 200 then inr r else inl (ReturnPassthroughError [r]),
   add_event s (Post (upstream_post env req data stream))).
Proof.
  intros Hg Hd Hc Hj Hup Hcase.
  rewrite (passthrough_default env req params raise_exceptions stream final s stored sent data
             Hg (copy_with_override_dict _ _ _ Hd Hc) Hc Hj).
  rewrite Hup. f_equal. unfold passthrough_response, relayed_body.
  destruct (Z.eqb_spec (status_code up) 200) as [Heq | Hne]; cbn [negb].
  - destruct Hcase as [Hne | ->]; [congruence |]. rewrite Heq. reflexivity.
  - reflexivity.
Qed.

(** X10 at work on an upstream that answers 503. *)
Lemma passthrough_relays_without_decoding_witness :
  let E := Scenario.env 503 Scenario.upstream_headers "Service Unavailable" in
  let P := Scenario.payload "read" (PList [Scenario.auth_params; Scenario.method_params]) in
  let rq := upstream_post E (Scenario.request "read" PNone) (Scenario.text P) false in
  passthrough E (Scenario.request "read" PNone) (payload_obj PNone) PNone true false false
    (Scenario.stored P) =
  (inl (ReturnPassthroughError
          [PResponse (json_Response (BodyText "Service Unavailable") 503)]),
   add_event (Scenario.stored P) (Post rq)).
Proof.
  intros E P rq.
  refine (passthrough_relays_without_decoding E (Scenario.request "read" PNone) PNone
            true false false (Scenario.stored P) P P (Scenario.text P)
            (mkHttpResponse 503 Scenario.upstream_headers "Service Unavailable")
            _ _ _ _ _ _); try (vm_compute; reflexivity).
  left. vm_compute. discriminate.
Defined.

(** X11.  Lines 81-86.  In buffered mode on a 200 answer, a body
    that does not decode as JSON raises ValueError, and a body that
    decodes to a value that cannot be searched for ['exception'] (a
    number, a boolean, null) raises TypeError when the caller asked for
    exception-sensitive behaviour and is returned as data otherwise;
    the upstream call has been made in both cases. *)
Theorem passthrough_buffered_body_must_decode env req params raise_exceptions s
    stored sent data up :
  g_api3_payload s = Some stored ->
  is_dict stored = true ->
  copy_with_override stored params = inr sent ->
  json_dumps env sent = Some data ->
  http_session env (posts_so_far s) (upstream_post env req data false) = inr up ->
  status_code up = 200 ->
  (json_loads env (content up) = None ->
   passthrough env req (payload_obj PNone) params raise_exceptions false false s =
   (inl ValueError, add_event s (Post (upstream_post env req data false)))) /\
  (forall v, json_loads env (content up) = Some v ->
             contains_str v "exception" = inl TypeError ->
   passthrough env req (payload_obj PNone) params raise_exceptions false false s =
   (if raise_exceptions then inl TypeError else inr v,
    add_event s (Post (upstream_post env req data false)))).
Proof.
  intros Hg Hd Hc Hj Hup Hst.
  rewrite (passthrough_default env req params raise_exceptions false false s stored sent data
             Hg (copy_with_override_dict _ _ _ Hd Hc) Hc Hj).
  rewrite Hup. unfold passthrough_response. rewrite Hst. cbn [Z.eqb negb orb].
  split.
  - intros ->. reflexivity.
  - intros v -> Hv. destruct raise_exceptions; [rewrite Hv |]; reflexivity.
Qed.

(** X11 at work on an upstream that answers 200 with HTML. *)
Lemma passthrough_buffered_body_must_decode_witness :
  let E := Scenario.env 200 Scenario.upstream_headers "<html>" in
  let P := Scenario.payload "read" (PList [Scenario.auth_params; Scenario.method_params]) in
  let rq := upstream_post E (Scenario.request "read" PNone) (Scenario.text P) false in
  passthrough E (Scenario.request "read" PNone) (payload_obj PNone) PNone true false false
    (Scenario.stored P) =
  (inl ValueError, add_event (Scenario.stored P) (Post rq)).
Proof.
  intros E P rq.
  refine (proj1 (passthrough_buffered_body_must_decode E (Scenario.request "read" PNone) PNone
            true (Scenario.stored P) P P (Scenario.text P)
            (mkHttpResponse 200 Scenario.upstream_headers "<html>")
            _ _ _ _ _ _) _); vm_compute; reflexivity.
Defined.

Lemma passthrough_override_fails env req params raise_exceptions stream final s stored e :
  g_api3_payload s = Some stored ->
  copy_with_override stored params = inl e ->
  passthrough env req (payload_obj PNone) params raise_exceptions stream final s = (inl e, s).
Proof.
  intros Hg Hc. unfold passthrough. rewrite bind_run, bind_run.
  unfold get_g_api3_payload. rewrite Hg. cbn [ret]. rewrite bind_run.
  unfold copy_with_override in Hc.
  destruct params; try discriminate Hc; rewrite bind_run, Hc; reflexivity.
Qed.

(** X12.  Line 60.  With an override and the default payload, a
    stored envelope without the key [params] raises KeyError and one
    whose [params] is an empty list raises IndexError; in both cases no
    upstream call is made and the state is unchanged. *)
Theorem override_needs_a_last_slot env req params raise_exceptions stream final s d :
  g_api3_payload s = Some (PDict d) ->
  params <> PNone ->
  (dict_get d (KStr "params") = None ->
   passthrough env req (payload_obj PNone) params raise_exceptions stream final s =
   (inl KeyError, s)) /\
  (dict_get d (KStr "params") = Some (PList []) ->
   passthrough env req (payload_obj PNone) params raise_exceptions stream final s =
   (inl IndexError, s)).
Proof.
  intros Hg Hp.
  assert (Hc : copy_with_override (PDict d) params = substitute_params (PDict d) params).
  { destruct params; try reflexivity. congruence. }
  split; intros Hd; apply (passthrough_override_fails _ _ _ _ _ _ _ _ _ Hg);
    rewrite Hc; unfold substitute_params; cbn [getitem]; rewrite Hd; reflexivity.
Qed.

(** X12 at work on an envelope with an empty params list. *)
Lemma override_needs_a_last_slot_witness :
  let E := Scenario.env 200 Scenario.upstream_headers "{}" in
  let s := Scenario.stored (Scenario.payload "create" (PList [])) in
  passthrough E (Scenario.request "create" (PList [])) (payload_obj PNone) Scenario.override
    true false false s = (inl IndexError, s).
Proof.
  intros E s.
  refine (proj2 (override_needs_a_last_slot E (Scenario.request "create" (PList []))
                   Scenario.override true false false s
                   [(KStr "method_name", PStr "create"); (KStr "params", PList [])] _ _) _).
  - reflexivity.
  - discriminate.
  - reflexivity.
Defined.

(** ** Direct handlers *)

Lemma dispatch_direct_value env req s method_name method_params entity_type name method result :
  lookup_method env method_name = inr (name, method) ->
  method method_params = HReturn result ->
  dispatch env req method_name method_params entity_type s =
  finish env entity_type result (add_event s (Call name method_params)).
Proof.
  intros Hm Hr. rewrite (dispatch_registered env req _ _ method_params entity_type _ _ Hm).
  rewrite bind_run. unfold try_except, run_method. rewrite bind_run. cbn [emit].
  rewrite Hr. reflexivity.
Qed.

Lemma dispatch_raised env req s method_name method_params entity_type name method e :
  lookup_method env method_name = inr (name, method) ->
  method method_params = HRaise e ->
  dispatch env req method_name method_params entity_type s =
  (let* result := on_exception env req method_name method_params e in
   finish env entity_type result) (add_event s (Call name method_params)).
Proof.
  intros Hm Hr. rewrite (dispatch_registered env req _ _ method_params entity_type _ _ Hm).
  rewrite !bind_run. unfold try_except, run_method. rewrite bind_run. cbn [emit].
  rewrite Hr. reflexivity.
Qed.

(** X13.  Lines 164 and 212-229.  When a registered Direct handler
    returns a value that is neither a Response nor a sequence starting
    with one, [json_api] answers [json.dumps] of that value with status
    200 and Content-Type application/json, logs the completion line and
    sets the flag, and makes no upstream call: the handler call is the
    only event. *)
Theorem direct_value_serialised env req s payload method_name auth_params method_params
    chunks entity_type name method result n count text :
  envelope env req payload method_name auth_params method_params chunks entity_type ->
  lookup_method env method_name = inr (name, method) ->
  method method_params = HReturn result ->
  is_Response_or_starts_with_one result = inr false ->
  json_dumps env result = Some text ->
  num_entities result = inr n ->
  returned_count n entity_type = inr count ->
  json_api env req s =
  (inr (view_tuple text 200 json_content_type),
   completed (called s payload chunks name method_params) count).
Proof.
  intros He Hm Hr Hraw Hj Hn Hc. rewrite (json_api_dispatches _ _ _ _ _ _ _ _ _ He).
  rewrite (dispatch_direct_value env req _ _ method_params entity_type name method result Hm Hr).
  apply (finish_ok env entity_type result _ n count _ Hn Hc).
  unfold normalised. rewrite Hraw, Hj. reflexivity.
Qed.

(** X13 at work on the handler that returns two entities. *)
Lemma direct_value_serialised_witness :
  let E := Scenario.env 200 Scenario.upstream_headers "{}" in
  let params := PList [Scenario.auth_params; Scenario.method_params] in
  json_api E (Scenario.request "read" params) Scenario.idle =
  (inr (view_tuple
          (Scenario.text (PDict [(KStr "entities", PList [PDict [(KStr "id", PInt 1)];
                                                          PDict [(KStr "id", PInt 2)]])]))
          200 json_content_type),
   completed (called Scenario.idle (Scenario.payload "read" params)
                [Starting (PStr "read"); On (PStr "Shot"); ByScript (PStr "toolkit")]
                "read" Scenario.method_params)
             (Some (2, PStr "Shot"))).
Proof.
  intros E params.
  refine (direct_value_serialised E (Scenario.request "read" params) Scenario.idle
            (Scenario.payload "read" params) (PStr "read") Scenario.auth_params
            Scenario.method_params _ (Some (PStr "Shot")) "read" Scenario.read
            _ (Some 2) _ _ _ _ _ _ _ _ _); try (vm_compute; reflexivity).
  repeat split; vm_compute; reflexivity.
Defined.

(** ** Exceptions as control flow *)

(** X14.  Lines 184-185 and 217-220.  When a handler raises
    [ReturnResponse] (or its subclass [ReturnPassthroughError]) with
    arguments, the tuple of arguments becomes the result: it is returned
    as it is when its first item is a Response, and otherwise it is
    serialised by [json.dumps], as a JSON array, into a 200 answer; the
    completion line carries no count. *)
Theorem return_response_args_become_the_result env req s payload method_name auth_params
    method_params chunks entity_type name method e first rest text :
  envelope env req payload method_name auth_params method_params chunks entity_type ->
  lookup_method env method_name = inr (name, method) ->
  method method_params = HRaise e ->
  ReturnResponse_args e = Some (first :: rest) ->
  (starts_with_Response (first :: rest) = false ->
   json_dumps env (PList (first :: rest)) = Some text) ->
  json_api env req s =
  (inr (if starts_with_Response (first :: rest) then PList (first :: rest)
        else view_tuple text 200 json_content_type),
   completed (called s payload chunks name method_params) None).
Proof.
  intros He Hm Hr Ha Hj. rewrite (json_api_dispatches _ _ _ _ _ _ _ _ _ He).
  rewrite (dispatch_raised env req _ _ method_params entity_type name method e Hm Hr).
  rewrite bind_run.
  assert (Hon : on_exception env req method_name method_params e
                  (add_event (at_dispatch s payload chunks) (Call name method_params)) =
                (inr (PList (first :: rest)),
                 add_event (at_dispatch s payload chunks) (Call name method_params))).
  { destruct e; try discriminate Ha; injection Ha as ->; reflexivity. }
  rewrite Hon.
  apply (finish_ok env entity_type (PList (first :: rest)) _ None None); try reflexivity.
  unfold normalised.
  destruct first; cbn in *; try (rewrite (Hj eq_refl); reflexivity). reflexivity.
Qed.

(** X14 at work on a handler that raises ReturnResponse with a text, a status and headers. *)
Lemma return_response_args_become_the_result_witness :
  let E := api3_method (Scenario.env 200 Scenario.upstream_headers "{}") "find_one"
             (fun _ => HRaise (ReturnResponse [PStr "gone"; PInt 200; json_content_type])) in
  let params := PList [Scenario.auth_params; Scenario.method_params] in
  json_api E (Scenario.request "find_one" params) Scenario.idle =
  (inr (view_tuple (Scenario.text (PList [PStr "gone"; PInt 200; json_content_type]))
                   200 json_content_type),
   completed (called Scenario.idle (Scenario.payload "find_one" params)
                [Starting (PStr "find_one"); On (PStr "Shot"); ByScript (PStr "toolkit")]
                "find_one" Scenario.method_params)
             None).
Proof.
  intros E params.
  refine (return_response_args_become_the_result E (Scenario.request "find_one" params)
            Scenario.idle (Scenario.payload "find_one" params) (PStr "find_one")
            Scenario.auth_params Scenario.method_params _ (Some (PStr "Shot")) "find_one"
            (fun _ => HRaise (ReturnResponse [PStr "gone"; PInt 200; json_content_type]))
            _ (PStr "gone") [PInt 200; json_content_type] _ _ _ _ _ _);
    try (vm_compute; reflexivity).
  - repeat split; vm_compute; reflexivity.
Defined.

(** X15.  Line 219.  When a handler returns an empty list, or raises
    [ReturnResponse] without arguments, the test [result[0]] raises
    IndexError: [json_api] raises it after the handler call, without a
    completion line. *)
Theorem empty_result_raises_IndexError env req s payload method_name auth_params
    method_params chunks entity_type name method :
  envelope env req payload method_name auth_params method_params chunks entity_type ->
  lookup_method env method_name = inr (name, method) ->
  method method_params = HReturn (PList []) \/
  (exists e, method method_params = HRaise e /\ ReturnResponse_args e = Some []) ->
  json_api env req s = (inl IndexError, called s payload chunks name method_params).
Proof.
  intros He Hm Hr. rewrite (json_api_dispatches _ _ _ _ _ _ _ _ _ He).
  destruct Hr as [Hr | (e & Hr & Ha)].
  - rewrite (dispatch_direct_value env req _ _ method_params entity_type name method _ Hm Hr).
    reflexivity.
  - rewrite (dispatch_raised env req _ _ method_params entity_type name method e Hm Hr).
    destruct e; try discriminate Ha; injection Ha as ->; reflexivity.
Qed.

(** X15 at work on a handler that returns an empty list. *)
Lemma empty_result_raises_IndexError_witness :
  let E := api3_method (Scenario.env 200 Scenario.upstream_headers "{}") "find"
             (fun _ => HReturn (PList [])) in
  let params := PList [Scenario.auth_params; Scenario.method_params] in
  json_api E (Scenario.request "find" params) Scenario.idle =
  (inl IndexError,
   called Scenario.idle (Scenario.payload "find" params)
     [Starting (PStr "find"); On (PStr "Shot"); ByScript (PStr "toolkit")]
     "find" Scenario.method_params).
Proof.
  intros E params.
  refine (empty_result_raises_IndexError E (Scenario.request "find" params)
            Scenario.idle (Scenario.payload "find" params) (PStr "find")
            Scenario.auth_params Scenario.method_params _ (Some (PStr "Shot")) "find"
            (fun _ => HReturn (PList [])) _ _ _).
  - repeat split; vm_compute; reflexivity.
  - vm_compute; reflexivity.
  - left. reflexivity.
Defined.

(** X16.  Lines 184-199.  An exception of a Direct handler that is
    neither a [ReturnResponse], a [Fault] nor a [Passthrough] leaves
    [json_api] unchanged, with no completion line, no upstream call and
    the flag untouched. *)
Theorem uncaught_exception_propagates env req s payload method_name auth_params
    method_params chunks entity_type name method e :
  envelope env req payload method_name auth_params method_params chunks entity_type ->
  lookup_method env method_name = inr (name, method) ->
  method method_params = HRaise e ->
  uncaught e = true ->
  json_api env req s = (inl e, called s payload chunks name method_params).
Proof.
  intros He Hm Hr Hu. rewrite (json_api_dispatches _ _ _ _ _ _ _ _ _ He).
  rewrite (dispatch_raised env req _ _ method_params entity_type name method e Hm Hr).
  destruct e as [| | sg | | | | | | | |]; try discriminate Hu; reflexivity.
Qed.

(** X16 at work on a handler that raises an error of the database. *)
Lemma uncaught_exception_propagates_witness :
  let E := api3_method (Scenario.env 200 Scenario.upstream_headers "{}") "find"
             (fun _ => HRaise (OtherError "OperationalError")) in
  let params := PList [Scenario.auth_params; Scenario.method_params] in
  json_api E (Scenario.request "find" params) Scenario.idle =
  (inl (OtherError "OperationalError"),
   called Scenario.idle (Scenario.payload "find" params)
     [Starting (PStr "find"); On (PStr "Shot"); ByScript (PStr "toolkit")]
     "find" Scenario.method_params).
Proof.
  intros E params.
  refine (uncaught_exception_propagates E (Scenario.request "find" params)
            Scenario.idle (Scenario.payload "find" params) (PStr "find")
            Scenario.auth_params Scenario.method_params _ (Some (PStr "Shot")) "find"
            (fun _ => HRaise (OtherError "OperationalError")) _ _ _ _ _).
  - repeat split; vm_compute; reflexivity.
  - vm_compute; reflexivity.
  - reflexivity.
  - reflexivity.
Defined.

(** X17.  Lines 199-210.  When a Direct handler raises [Passthrough]
    and the upstream answers 200, [json_api] logs the reason, makes one
    streaming upstream call that posts the stored envelope, returns the
    upstream body as a stream with status 200, and logs the completion
    line without a count. *)
Theorem passthrough_signal_delegates env req s payload method_name auth_params
    method_params chunks entity_type name method cls msg data up :
  envelope env req payload method_name auth_params method_params chunks entity_type ->
  lookup_method env method_name = inr (name, method) ->
  method method_params = HRaise (Signal (Passthrough cls msg)) ->
  json_dumps env payload = Some data ->
  http_session env (posts_so_far s) (upstream_post env req data true) = inr up ->
  status_code up = 200 ->
  json_api env req s =
  (inr (PResponse (json_Response (BodyStream (content up)) 200)),
   completed
     (add_event
        (add_log (called s payload chunks name method_params) INFO
           (PassingThroughSignal method_name cls msg (debug_detail env method_params)))
        (Post (upstream_post env req data true)))
     None).
Proof.
  intros He Hm Hr Hj Hup Hst. rewrite (json_api_dispatches _ _ _ _ _ _ _ _ _ He).
  destruct He as (_ & Hd & _ & _).
  rewrite (dispatch_raised env req _ _ method_params entity_type name method _ Hm Hr).
  rewrite bind_run. cbn [on_exception]. rewrite bind_run. cbn [log_record].
  erewrite passthrough_default; [| reflexivity | exact Hd | reflexivity | exact Hj].
  replace (posts_so_far (add_log _ _ _)) with (posts_so_far s).
  2: { unfold posts_so_far. cbn [trace add_log add_event at_dispatch store_payload].
       rewrite List.filter_app. cbn. rewrite app_nil_r. reflexivity. }
  rewrite Hup. unfold passthrough_response. rewrite Hst. cbn [Z.eqb negb orb].
  reflexivity.
Qed.

(** X17 at work on a handler that raises Passthrough. *)
Lemma passthrough_signal_delegates_witness :
  let E := api3_method (Scenario.env 200 Scenario.upstream_headers "{}") "find"
             (fun _ => HRaise (Signal (Passthrough "Passthrough" "no cache"))) in
  let params := PList [Scenario.auth_params; Scenario.method_params] in
  fst (json_api E (Scenario.request "find" params) Scenario.idle) =
  inr (PResponse (json_Response (BodyStream "{}") 200)).
Proof.
  intros E params.
  refine (f_equal fst
            (passthrough_signal_delegates E (Scenario.request "find" params)
               Scenario.idle (Scenario.payload "find" params) (PStr "find")
               Scenario.auth_params Scenario.method_params
               [Starting (PStr "find"); On (PStr "Shot"); ByScript (PStr "toolkit")]
               (Some (PStr "Shot")) "find"
               (fun _ => HRaise (Signal (Passthrough "Passthrough" "no cache")))
               "Passthrough" "no cache"
               (Scenario.text (Scenario.payload "find" params))
               (mkHttpResponse 200 Scenario.upstream_headers "{}") _ _ _ _ _ _)).
  - repeat split; vm_compute; reflexivity.
  - vm_compute; reflexivity.
  - reflexivity.
  - vm_compute; reflexivity.
  - reflexivity.
  - reflexivity.
Defined.

(** ** Two-Phase handlers that do not follow the protocol *)

(** X19.  Line 178.  A generator handler that yields its override
    and then finishes without a second yield makes [coroutine.send]
    raise StopIteration, which no [except] clause names: the upstream
    call has been made, and [json_api] raises StopIteration without a
    completion line. *)
Theorem generator_that_yields_once_raises_StopIteration env req s payload method_name
    auth_params method_params chunks entity_type name method x k sent data up v :
  envelope env req payload method_name auth_params method_params chunks entity_type ->
  lookup_method env method_name = inr (name, method) ->
  method method_params = HGenerator (GYield x k) ->
  copy_with_override payload x = inr sent ->
  json_dumps env sent = Some data ->
  http_session env (posts_so_far s) (upstream_post env req data false) = inr up ->
  status_code up = 200 ->
  json_loads env (content up) = Some v ->
  contains_str v "exception" = inr false ->
  k (Send v) = GStop ->
  json_api env req s =
  (inl StopIteration,
   mkState (Some payload) (log s ++ [(INFO, Headline chunks)]) (skip_http_log s)
     (trace s ++ [Call name method_params; Resume (Send PNone);
                  Post (upstream_post env req data false); Resume (Send v)])).
Proof.
  intros He Hm Hg Hc Hj Hup Hst Hl Hex Hk.
  rewrite (json_api_dispatches _ _ _ _ _ _ _ _ _ He).
  assert (Hs : is_dict sent = true).
  { destruct He as (_ & Hdict & _). eapply copy_with_override_dict; eauto. }
  pose proof (run_method_posted env req name method method_params x k
                (at_dispatch s payload chunks) payload sent data Hg eq_refl Hs Hc Hj) as Hrun.
  change (posts_so_far (at_dispatch s payload chunks)) with (posts_so_far s) in Hrun.
  rewrite Hup, (passthrough_response_data _ _ _ Hst Hl Hex) in Hrun.
  rewrite bind_run in Hrun. unfold resume in Hrun. rewrite bind_run in Hrun.
  cbn [emit] in Hrun. rewrite Hk in Hrun. cbn [raise] in Hrun.
  rewrite (dispatch_registered env req _ _ method_params entity_type _ _ Hm).
  rewrite bind_run. unfold try_except. rewrite Hrun. cbn [on_exception raise].
  f_equal.
  unfold add_event, at_dispatch, add_log, store_payload.
  cbn [g_api3_payload log skip_http_log trace].
  f_equal. repeat rewrite <- app_assoc. reflexivity.
Qed.

(** X19 at work on a generator with a single yield. *)
Lemma generator_that_yields_once_raises_StopIteration_witness :
  let E := api3_method (Scenario.env 200 Scenario.upstream_headers "{}") "create"
             (fun _ => HGenerator (GYield Scenario.override (fun _ => GStop))) in
  let params := PList [Scenario.auth_params; Scenario.method_params] in
  fst (json_api E (Scenario.request "create" params) Scenario.idle) = inl StopIteration.
Proof.
  intros E params.
  refine (f_equal fst
            (generator_that_yields_once_raises_StopIteration E
               (Scenario.request "create" params) Scenario.idle
               (Scenario.payload "create" params) (PStr "create")
               Scenario.auth_params Scenario.method_params
               [Starting (PStr "create"); On (PStr "Shot"); ByScript (PStr "toolkit")]
               (Some (PStr "Shot")) "create"
               (fun _ => HGenerator (GYield Scenario.override (fun _ => GStop)))
               Scenario.override (fun _ => GStop)
               (Scenario.payload "create" (PList [Scenario.auth_params; Scenario.override]))
               (Scenario.text
                  (Scenario.payload "create" (PList [Scenario.auth_params; Scenario.override])))
               (mkHttpResponse 200 Scenario.upstream_headers "{}") (PDict [])
               _ _ _ _ _ _ _ _ _ _)); try (vm_compute; reflexivity).
  repeat split; vm_compute; reflexivity.
Defined.

(** X20.  Lines 172-178 and 199-210.  When a Two-Phase handler,
    resumed with the upstream results, raises [Passthrough], the request
    is delegated by a second upstream call: streaming, and posting
    [json.dumps] of [stored], the envelope that [g.api3_payload] holds
    when the generator has raised, not the copy that carried the
    override of the first call; its body is streamed back with status
    200 and the completion line has no count. *)
Theorem two_phase_handler_can_still_delegate env req s payload method_name
    auth_params method_params chunks entity_type name method x k sent data up v
    cls msg stored data' up' :
  envelope env req payload method_name auth_params method_params chunks entity_type ->
  lookup_method env method_name = inr (name, method) ->
  method method_params = HGenerator (GYield x k) ->
  copy_with_override payload x = inr sent ->
  json_dumps env sent = Some data ->
  http_session env (posts_so_far s) (upstream_post env req data false) = inr up ->
  status_code up = 200 ->
  json_loads env (content up) = Some v ->
  contains_str v "exception" = inr false ->
  k (Send v) = GRaise (Signal (Passthrough cls msg)) ->
  g_api3_payload
    (snd (run_method env req name method method_params (at_dispatch s payload chunks))) =
  Some stored ->
  json_dumps env stored = Some data' ->
  http_session env (S (posts_so_far s)) (upstream_post env req data' true) = inr up' ->
  status_code up' = 200 ->
  fst (json_api env req s) = inr (PResponse (json_Response (BodyStream (content up')) 200)) /\
  log (snd (json_api env req s)) =
  log s ++ [(INFO, Headline chunks);
            (INFO, PassingThroughSignal method_name cls msg (debug_detail env method_params));
            (INFO, Returned None)] /\
  skip_http_log (snd (json_api env req s)) = true /\
  trace (snd (json_api env req s)) =
  trace s ++ [Call name method_params; Resume (Send PNone);
              Post (upstream_post env req data false); Resume (Send v);
              Post (upstream_post env req data' true)].
Proof.
  intros He Hm Hg Hc Hj Hup Hst Hl Hex Hk Hstored Hj' Hup' Hst'.
  rewrite (json_api_dispatches _ _ _ _ _ _ _ _ _ He).
  assert (Hs : is_dict sent = true).
  { destruct He as (_ & Hdict & _). eapply copy_with_override_dict; eauto. }
  assert (Hd : is_dict payload = true) by (destruct He as (_ & Hdict & _); exact Hdict).
  pose proof (run_method_posted env req name method method_params x k
                (at_dispatch s payload chunks) payload sent data Hg eq_refl Hs Hc Hj) as Hrun.
  change (posts_so_far (at_dispatch s payload chunks)) with (posts_so_far s) in Hrun.
  rewrite Hup, (passthrough_response_data _ _ _ Hst Hl Hex) in Hrun.
  rewrite bind_run in Hrun. unfold resume in Hrun. rewrite bind_run in Hrun.
  cbn [emit] in Hrun. rewrite Hk in Hrun. cbn [raise] in Hrun.
  rewrite Hrun in Hstored. cbn in Hstored. injection Hstored as <-.
  rewrite (dispatch_registered env req _ _ method_params entity_type _ _ Hm).
  rewrite bind_run. unfold try_except. rewrite Hrun. cbn [on_exception].
  rewrite bind_run. cbn [log_record].
  erewrite passthrough_default; [| reflexivity | exact Hd | reflexivity | exact Hj'].
  replace (posts_so_far (add_log _ _ _)) with (S (posts_so_far s)).
  2: { unfold posts_so_far. cbn [trace add_log add_event at_dispatch store_payload].
       rewrite !List.filter_app, !length_app. cbn. lia. }
  rewrite Hup'. unfold passthrough_response. rewrite Hst'. cbn [Z.eqb Pos.eqb negb orb].
  rewrite (finish_ok env entity_type _ _ None None
             (PResponse (json_Response (BodyStream (content up')) 200)));
    try reflexivity.
  unfold store_skip_http_log, add_event, at_dispatch, add_log, store_payload.
  cbn [fst snd g_api3_payload log skip_http_log trace].
  repeat split; repeat rewrite <- app_assoc; reflexivity.
Qed.

(** X20 at work on a generator that raises Passthrough once resumed. *)
Lemma two_phase_handler_can_still_delegate_witness :
  let h : handler := fun _ =>
    HGenerator (GYield Scenario.override
                  (fun _ => GRaise (Signal (Passthrough "Passthrough" "stale")))) in
  let E := api3_method (Scenario.env 200 Scenario.upstream_headers "{}") "create" h in
  let params := PList [Scenario.auth_params; Scenario.method_params] in
  let R := Scenario.request "create" params in
  let sent := Scenario.payload "create" (PList [Scenario.auth_params; Scenario.override]) in
  fst (json_api E R Scenario.idle) = inr (PResponse (json_Response (BodyStream "{}") 200)) /\
  log (snd (json_api E R Scenario.idle)) =
  log Scenario.idle ++
  [(INFO, Headline [Starting (PStr "create"); On (PStr "Shot"); ByScript (PStr "toolkit")]);
   (INFO, PassingThroughSignal (PStr "create") "Passthrough" "stale"
            (debug_detail E Scenario.method_params));
   (INFO, Returned None)] /\
  skip_http_log (snd (json_api E R Scenario.idle)) = true /\
  trace (snd (json_api E R Scenario.idle)) =
  trace Scenario.idle ++
  [Call "create" Scenario.method_params; Resume (Send PNone);
   Post (upstream_post E R (Scenario.text sent) false); Resume (Send (PDict []));
   Post (upstream_post E R (Scenario.text (Scenario.payload "create" params)) true)].
Proof.
  intros h E params R sent.
  refine (two_phase_handler_can_still_delegate E R Scenario.idle
            (Scenario.payload "create" params) (PStr "create")
            Scenario.auth_params Scenario.method_params
            [Starting (PStr "create"); On (PStr "Shot"); ByScript (PStr "toolkit")]
            (Some (PStr "Shot")) "create" h
            Scenario.override
            (fun _ => GRaise (Signal (Passthrough "Passthrough" "stale")))
            sent (Scenario.text sent)
            (mkHttpResponse 200 Scenario.upstream_headers "{}") (PDict [])
            "Passthrough" "stale"
            (Scenario.payload "create" params)
            (Scenario.text (Scenario.payload "create" params))
            (mkHttpResponse 200 Scenario.upstream_headers "{}")
            _ _ _ _ _ _ _ _ _ _ _ _ _ _); try (vm_compute; reflexivity).
  repeat split; vm_compute; reflexivity.
Defined.

(** X26.  Lines 172-180.  A Two-Phase handler yields [x], is resumed
    with the decoded upstream result [v], yields [r] and then the
    further values [ys] (none of them a tuple that does not have one
    item) before it finishes.  Only [x] drives an upstream call; each
    value of [ys] is logged at warning level and dropped; [r], the value
    of the first resumption, is what is normalised into the response;
    and [json_api] returns, with the completion line and the flag. *)
Theorem formattable_extra_yields_logged_and_dropped env req s payload method_name auth_params
    method_params chunks entity_type name method x k sent data up v r k' ys n count response :
  envelope env req payload method_name auth_params method_params chunks entity_type ->
  lookup_method env method_name = inr (name, method) ->
  method method_params = HGenerator (GYield x k) ->
  copy_with_override payload x = inr sent ->
  json_dumps env sent = Some data ->
  http_session env (posts_so_far s) (upstream_post env req data false) = inr up ->
  status_code up = 200 ->
  json_loads env (content up) = Some v ->
  contains_str v "exception" = inr false ->
  k (Send v) = GYield r k' ->
  drain (k' (Send PNone)) = (ys, None) ->
  num_entities r = inr n ->
  returned_count n entity_type = inr count ->
  normalised env r = Some response ->
  fst (json_api env req s) = inr response /\
  log (snd (json_api env req s)) =
  log s ++ (INFO, Headline chunks)
        :: List.map (fun y => (WARNING, ExtraYielded y)) ys ++ [(INFO, Returned count)] /\
  skip_http_log (snd (json_api env req s)) = true /\
  trace (snd (json_api env req s)) =
  trace s ++ [Call name method_params; Resume (Send PNone);
              Post (upstream_post env req data false); Resume (Send v)]
          ++ repeat (Resume (Send PNone)) (S (length ys)).
Proof.
  intros He Hm Hg Hc Hj Hup Hst Hl Hex Hk Hd Hn Hcount Hresp.
  rewrite (two_phase_run_with_extra_yields env req s payload method_name auth_params
             method_params chunks entity_type name method x k sent data up v r k' ys n count
             response He Hm Hg Hc Hj Hup Hst Hl Hex Hk Hd Hn Hcount Hresp).
  cbn [fst snd log skip_http_log trace]. auto.
Qed.

(** X26 at work on a handler that yields [1] and the tuple [(2,)] after its result. *)
Lemma formattable_extra_yields_logged_and_dropped_witness :
  let h : handler := fun _ =>
    HGenerator
      (GYield Scenario.override (fun r =>
         match r with
         | Send results =>
             GYield (PDict [(KStr "results", results)]) (fun _ =>
               GYield (PInt 1) (fun _ => GYieldTuple [PInt 2] (fun _ => GStop)))
         | Throw e => GRaise e
         end)) in
  let E := api3_method (Scenario.env 200 Scenario.upstream_headers "{}") "update" h in
  let R := Scenario.request "update" (PList [Scenario.auth_params; Scenario.method_params]) in
  let sent := Scenario.payload "update" (PList [Scenario.auth_params; Scenario.override]) in
  let result := PDict [(KStr "results", PDict [])] in
  fst (json_api E R Scenario.idle) =
  inr (view_tuple (Scenario.text result) 200 json_content_type) /\
  log (snd (json_api E R Scenario.idle)) =
  log Scenario.idle ++
  (INFO, Headline [Starting (PStr "update"); On (PStr "Shot"); ByScript (PStr "toolkit")])
  :: List.map (fun y => (WARNING, ExtraYielded y)) [PInt 1; PInt 2]
  ++ [(INFO, Returned None)] /\
  skip_http_log (snd (json_api E R Scenario.idle)) = true /\
  trace (snd (json_api E R Scenario.idle)) =
  trace Scenario.idle ++
  [Call "update" Scenario.method_params; Resume (Send PNone);
   Post (upstream_post E R (Scenario.text sent) false); Resume (Send (PDict []))]
  ++ repeat (Resume (Send PNone)) 3.
Proof.
  intros h E R sent result.
  refine (formattable_extra_yields_logged_and_dropped E R Scenario.idle
            (Scenario.payload "update" (PList [Scenario.auth_params; Scenario.method_params]))
            (PStr "update") Scenario.auth_params Scenario.method_params
            [Starting (PStr "update"); On (PStr "Shot"); ByScript (PStr "toolkit")]
            (Some (PStr "Shot")) "update" h Scenario.override _
            sent (Scenario.text sent)
            (mkHttpResponse 200 Scenario.upstream_headers "{}") (PDict [])
            result _ [PInt 1; PInt 2] None None
            (view_tuple (Scenario.text result) 200 json_content_type)
            _ _ _ _ _ _ _ _ _ _ _ _ _ _); try (vm_compute; reflexivity).
  repeat split; vm_compute; reflexivity.
Defined.

(** ** The completion line without an entity type *)

(** X21.  Lines 126-127 and 224.  [entity_type] is bound only when
    the method params are a map.  When they are not, and the handler
    returns a map with a non-empty [entities], the completion line reads
    the unbound local: [json_api] raises UnboundLocalError (a NameError)
    after the handler has run, and returns nothing. *)
Theorem entity_count_without_entity_type_raises env req s payload method_name auth_params
    method_params chunks name method result d entities n response :
  envelope env req payload method_name auth_params method_params chunks None ->
  lookup_method env method_name = inr (name, method) ->
  method method_params = HReturn result ->
  result = PDict d ->
  dict_get d (KStr "entities") = Some entities ->
  len entities = inr n ->
  n <> 0 ->
  normalised env result = Some response ->
  json_api env req s =
  (inl (NameError "entity_type"), called s payload chunks name method_params).
Proof.
  intros He Hm Hr -> Hd Hlen Hn Hresp. rewrite (json_api_dispatches _ _ _ _ _ _ _ _ _ He).
  rewrite (dispatch_direct_value env req _ _ method_params None name method _ Hm Hr).
  unfold finish. rewrite bind_run. unfold num_entities. rewrite Hd, Hlen. cbn [lift ret].
  rewrite bind_run.
  assert (Hnorm : normalise env (PDict d)
                    (add_event (at_dispatch s payload chunks) (Call name method_params)) =
                  (inr response,
                   add_event (at_dispatch s payload chunks) (Call name method_params))).
  { unfold normalise, normalised in *. rewrite bind_run. cbn [is_Response_or_starts_with_one] in *.
    cbn [lift ret]. rewrite bind_run. unfold json_dumps_M.
    destruct (json_dumps env (PDict d)); [| discriminate]. injection Hresp as <-. reflexivity. }
  rewrite Hnorm, bind_run. unfold returned_count.
  apply Z.eqb_neq in Hn. rewrite Hn. reflexivity.
Qed.

(** X21 at work on a batch handler that returns two entities. *)
Lemma entity_count_without_entity_type_raises_witness :
  let E := api3_method (Scenario.env 200 Scenario.upstream_headers "{}") "batch"
             Scenario.read in
  let items := PList [PDict [(KStr "request_type", PStr "create")]] in
  let params := PList [Scenario.auth_params; items] in
  json_api E (Scenario.request "batch" params) Scenario.idle =
  (inl (NameError "entity_type"),
   called Scenario.idle (Scenario.payload "batch" params)
     [Starting (PStr "batch"); Batch [(PStr "create", 1)]; ByScript (PStr "toolkit")]
     "batch" items).
Proof.
  intros E items params.
  refine (entity_count_without_entity_type_raises E (Scenario.request "batch" params)
            Scenario.idle (Scenario.payload "batch" params) (PStr "batch")
            Scenario.auth_params items _ "batch" Scenario.read
            _ _ (PList [PDict [(KStr "id", PInt 1)]; PDict [(KStr "id", PInt 2)]]) 2
            (view_tuple
               (Scenario.text
                  (PDict [(KStr "entities", PList [PDict [(KStr "id", PInt 1)];
                                                   PDict [(KStr "id", PInt 2)]])]))
               200 json_content_type)
            _ _ _ _ _ _ _ _); try (vm_compute; reflexivity).
  - repeat split; vm_compute; reflexivity.
  - discriminate.
Defined.

(** ** What the handler is called with *)

Lemma read_envelope_list d method_name ps :
  dict_get d (KStr "method_name") = Some method_name ->
  dict_get d (KStr "params") = Some (PList ps) ->
  read_envelope (PDict d) = inr (method_name, nth 0 ps (PDict []), nth 1 ps (PDict [])).
Proof.
  intros Hm Hp. unfold read_envelope. cbn [getitem]. rewrite Hm, Hp.
  destruct ps as [| a [| b rest]]; try reflexivity.
  cbn [truthy len nth].
  assert (H0 : getitem (PList (a :: b :: rest)) (KInt 0) = inr a).
  { unfold getitem, seq_index.
    replace (Z.leb 0 0 && Z.ltb 0 (Z.of_nat (length (a :: b :: rest))))%bool with true.
    - reflexivity.
    - symmetry. apply andb_true_intro. split; [reflexivity |]. apply Z.ltb_lt.
      cbn [length]. lia. }
  assert (H1 : getitem (PList (a :: b :: rest)) (KInt 1) = inr b).
  { unfold getitem, seq_index.
    replace (Z.leb 0 1 && Z.ltb 1 (Z.of_nat (length (a :: b :: rest))))%bool with true.
    - reflexivity.
    - symmetry. apply andb_true_intro. split; [reflexivity |]. apply Z.ltb_lt.
      cbn [length]. lia. }
  rewrite H0.
  replace (Z.ltb 1 (Z.of_nat (length (a :: b :: rest)))) with true.
  - rewrite H1. reflexivity.
  - symmetry. apply Z.ltb_lt. cbn [length]. lia.
Qed.

(** X22.  Lines 118-122 and 164.  For an envelope whose [params] is
    a list, the registered handler is called once, with [params[1]], or
    with an empty map when [params] has fewer than two items; items
    after the second are ignored. *)
Theorem handler_receives_second_param_or_empty_map env req s d method_name ps name method
    chunks entity_type :
  json_loads env (request_data req) = Some (PDict d) ->
  dict_get d (KStr "method_name") = Some method_name ->
  dict_get d (KStr "params") = Some (PList ps) ->
  headline method_name (nth 0 ps (PDict [])) (nth 1 ps (PDict [])) = inr (chunks, entity_type) ->
  lookup_method env method_name = inr (name, method) ->
  exists t,
    trace (snd (json_api env req s)) = trace s ++ Call name (nth 1 ps (PDict [])) :: t /\
    Forall (fun e => is_call e = false) t.
Proof.
  intros Hl Hmn Hp Hh Hm.
  assert (He : envelope env req (PDict d) method_name (nth 0 ps (PDict []))
                 (nth 1 ps (PDict [])) chunks entity_type).
  { repeat split; try assumption. apply read_envelope_list; assumption. }
  rewrite (json_api_dispatches _ _ _ _ _ _ _ _ _ He).
  apply (dispatch_after_call (fun e => is_call e = false) env req method_name
           (nth 1 ps (PDict [])) entity_type name method (at_dispatch s (PDict d) chunks) Hm);
    reflexivity.
Qed.

(** X22 at work on an envelope with auth params only. *)
Lemma handler_receives_second_param_or_empty_map_witness :
  let E := Scenario.env 200 Scenario.upstream_headers "{}" in
  let params := PList [Scenario.auth_params] in
  exists t,
    trace (snd (json_api E (Scenario.request "read" params) Scenario.idle)) =
    trace Scenario.idle ++ Call "read" (PDict []) :: t /\
    Forall (fun e => is_call e = false) t.
Proof.
  intros E params.
  refine (handler_receives_second_param_or_empty_map E (Scenario.request "read" params)
            Scenario.idle
            [(KStr "method_name", PStr "read"); (KStr "params", params)]
            (PStr "read") [Scenario.auth_params] "read" Scenario.read
            [Starting (PStr "read"); ByScript (PStr "toolkit")] (Some PNone)
            _ _ _ _ _); vm_compute; reflexivity.
Defined.

(** ** How many upstream calls a request makes *)

Lemma posts_at_most_weaken {A} (c : M A) n m :
  (n <= m)%nat -> posts_at_most n c -> posts_at_most m c.
Proof. intros Hle Hc s. destruct (Hc s) as (t & Ht & Hn). exists t. split; [exact Ht | lia]. Qed.

Lemma posts_at_most_same {A} (c : M A) :
  (forall s, trace (snd (c s)) = trace s) -> posts_at_most 0 c.
Proof. intros H s. exists []. rewrite app_nil_r. split; [apply H | cbn; lia]. Qed.

Lemma posts_at_most_non_post {A} (c : M A) e :
  is_post e = false ->
  (forall s, trace (snd (c s)) = trace s ++ [e]) -> posts_at_most 0 c.
Proof. intros He H s. exists [e]. split; [apply H | cbn; rewrite He; cbn; lia]. Qed.

Lemma posts_at_most_bind {A B} (c : M A) (k : A -> M B) n m :
  posts_at_most n c -> (forall a, posts_at_most m (k a)) -> posts_at_most (n + m) (bind c k).
Proof.
  intros Hc Hk s. rewrite bind_run. destruct (Hc s) as (t & Ht & Hn).
  destruct (c s) as [[e | a] s1]; cbn [snd] in *.
  - exists t. split; [exact Ht | lia].
  - destruct (Hk a s1) as (t' & Ht' & Hm). exists (t ++ t').
    rewrite Ht', Ht, <- app_assoc. split; [reflexivity |].
    rewrite List.filter_app, length_app. lia.
Qed.

Lemma posts_at_most_try {A B} (c : M A) (h : exn -> M B) (k : A -> M B) n m :
  posts_at_most n c -> (forall e, posts_at_most m (h e)) -> (forall a, posts_at_most m (k a)) ->
  posts_at_most (n + m) (try_except_else c h k).
Proof.
  intros Hc Hh Hk s. unfold try_except_else. destruct (Hc s) as (t & Ht & Hn).
  destruct (c s) as [[e | a] s1]; cbn [snd] in *.
  - destruct (Hh e s1) as (t' & Ht' & Hm). exists (t ++ t').
    rewrite Ht', Ht, <- app_assoc. split; [reflexivity |].
    rewrite List.filter_app, length_app. lia.
  - destruct (Hk a s1) as (t' & Ht' & Hm). exists (t ++ t').
    rewrite Ht', Ht, <- app_assoc. split; [reflexivity |].
    rewrite List.filter_app, length_app. lia.
Qed.

Lemma posts_at_most_try_except {A} (c : M A) (h : exn -> M A) n m :
  posts_at_most n c -> (forall e, posts_at_most m (h e)) ->
  posts_at_most (n + m) (try_except c h).
Proof.
  intros Hc Hh s. unfold try_except. destruct (Hc s) as (t & Ht & Hn).
  destruct (c s) as [[e | a] s1]; cbn [snd] in *.
  - destruct (Hh e s1) as (t' & Ht' & Hm). exists (t ++ t').
    rewrite Ht', Ht, <- app_assoc. split; [reflexivity |].
    rewrite List.filter_app, length_app. lia.
  - exists t. split; [exact Ht | lia].
Qed.

Lemma posts_at_most_ret {A} (a : A) : posts_at_most 0 (ret a).
Proof. apply posts_at_most_same. reflexivity. Qed.

Lemma posts_at_most_raise {A} e : posts_at_most 0 (@raise A e).
Proof. apply posts_at_most_same. reflexivity. Qed.

Lemma posts_at_most_lift {A} (r : exn + A) : posts_at_most 0 (lift r).
Proof. destruct r; [apply posts_at_most_raise | apply posts_at_most_ret]. Qed.

Lemma posts_at_most_passthrough env req payload params raise_exceptions stream final :
  posts_at_most 1 (passthrough env req payload params raise_exceptions stream final).
Proof.
  intros s.
  destruct (passthrough_frame env req payload params raise_exceptions stream
              final s) as (_ & _ & [H | [data H]]).
  - exists []. rewrite app_nil_r. split; [exact H | cbn; lia].
  - eexists. split; [exact H | cbn; lia].
Qed.

Lemma posts_at_most_emit e : is_post e = false -> posts_at_most 0 (emit e).
Proof. intros He. apply (posts_at_most_non_post _ e He). reflexivity. Qed.

Lemma posts_at_most_log_record l m : posts_at_most 0 (log_record l m).
Proof. apply posts_at_most_same. reflexivity. Qed.

Lemma posts_at_most_resume c r : posts_at_most 0 (resume c r).
Proof.
  unfold resume. apply (posts_at_most_bind _ _ 0 0); [apply posts_at_most_emit; reflexivity |].
  intros _. destruct c; [apply posts_at_most_raise | apply posts_at_most_raise |
                         apply posts_at_most_ret | apply posts_at_most_ret].
Qed.

Lemma posts_at_most_extra_yields c : posts_at_most 0 (extra_yields c).
Proof.
  induction c as [| e | x k IH | xs k IH]; cbn [extra_yields];
    (apply (posts_at_most_bind _ _ 0 0); [apply posts_at_most_emit; reflexivity | intros _]).
  - apply posts_at_most_ret.
  - apply posts_at_most_raise.
  - apply (posts_at_most_bind _ _ 0 0); [apply posts_at_most_log_record | intros _; apply IH].
  - destruct xs as [| x [| y xs]]; try apply posts_at_most_raise.
    apply (posts_at_most_bind _ _ 0 0); [apply posts_at_most_log_record | intros _; apply IH].
Qed.

Lemma posts_at_most_run_method env req name method method_params :
  posts_at_most 1 (run_method env req name method method_params).
Proof.
  unfold run_method.
  apply (posts_at_most_bind _ _ 0 1); [apply posts_at_most_emit; reflexivity | intros _].
  destruct (method method_params) as [v | e | c].
  - apply (posts_at_most_weaken _ 0); [lia | apply posts_at_most_ret].
  - apply (posts_at_most_weaken _ 0); [lia | apply posts_at_most_raise].
  - apply (posts_at_most_bind _ _ 0 1); [apply posts_at_most_resume |]. intros [x k].
    apply (posts_at_most_try _ _ _ 1 0).
    + apply posts_at_most_passthrough.
    + intros e. apply posts_at_most_raise.
    + intros v. apply (posts_at_most_bind _ _ 0 0); [apply posts_at_most_resume |].
      intros [result k'].
      apply (posts_at_most_bind _ _ 0 0);
        [apply posts_at_most_extra_yields | intros _; apply posts_at_most_ret].
Qed.

Lemma posts_at_most_json_dumps_M env v : posts_at_most 0 (json_dumps_M env v).
Proof.
  unfold json_dumps_M.
  destruct (json_dumps env v); [apply posts_at_most_ret | apply posts_at_most_raise].
Qed.

Lemma posts_at_most_on_exception env req method_name method_params e :
  posts_at_most 1 (on_exception env req method_name method_params e).
Proof.
  destruct e as [args | args | sg | | | | | | | n | c];
    try (apply (posts_at_most_weaken _ 0); [lia | apply posts_at_most_raise]);
    try (apply (posts_at_most_weaken _ 0); [lia | apply posts_at_most_ret]).
  destruct sg as [cls code msg | cls msg]; cbn [on_exception].
  - apply (posts_at_most_weaken _ 0); [lia |].
    apply (posts_at_most_bind _ _ 0 0); [apply posts_at_most_log_record | intros _].
    apply (posts_at_most_bind _ _ 0 0); [apply posts_at_most_raise |]. intros v.
    apply (posts_at_most_bind _ _ 0 0);
      [apply posts_at_most_json_dumps_M | intros; apply posts_at_most_ret].
  - apply (posts_at_most_bind _ _ 0 1); [apply posts_at_most_log_record | intros _].
    apply posts_at_most_passthrough.
Qed.

Lemma posts_at_most_finish env entity_type result :
  posts_at_most 0 (finish env entity_type result).
Proof.
  unfold finish. apply (posts_at_most_bind _ _ 0 0); [apply posts_at_most_lift |]. intros n.
  apply (posts_at_most_bind _ _ 0 0).
  { unfold normalise. apply (posts_at_most_bind _ _ 0 0); [apply posts_at_most_lift |].
    intros [].
    - apply posts_at_most_ret.
    - apply (posts_at_most_bind _ _ 0 0);
        [apply posts_at_most_json_dumps_M | intros; apply posts_at_most_ret]. }
  intros r. apply (posts_at_most_bind _ _ 0 0); [apply posts_at_most_lift |]. intros c.
  apply (posts_at_most_bind _ _ 0 0); [apply posts_at_most_log_record | intros _].
  apply (posts_at_most_bind _ _ 0 0);
    [apply posts_at_most_same; reflexivity | intros _; apply posts_at_most_ret].
Qed.

Lemma posts_at_most_dispatch env req method_name method_params entity_type :
  posts_at_most 2 (dispatch env req method_name method_params entity_type) /\
  (forall e, lookup_method env method_name = inl e ->
             posts_at_most 1 (dispatch env req method_name method_params entity_type)) /\
  (forall name method, lookup_method env method_name = inr (name, method) ->
     (forall c, method method_params <> HGenerator c) ->
     posts_at_most 1 (dispatch env req method_name method_params entity_type)).
Proof.
  assert (Hu : forall e, lookup_method env method_name = inl e ->
             posts_at_most 1 (dispatch env req method_name method_params entity_type)).
  { intros e Hm. unfold dispatch. rewrite Hm.
    assert (Hp : posts_at_most 1
                   (log_record INFO
                      (PassingThroughUnknown method_name (debug_detail env method_params)) ;;;
                    passthrough env req (payload_obj PNone) PNone true true false)).
    { apply (posts_at_most_bind _ _ 0 1); [apply posts_at_most_log_record | intros _].
      apply posts_at_most_passthrough. }
    destruct e; try (apply (posts_at_most_weaken _ 0); [lia | apply posts_at_most_raise]).
    exact Hp. }
  split; [| split; [exact Hu |]].
  - destruct (lookup_method env method_name) as [e | [name method]] eqn:Hm.
    + apply (posts_at_most_weaken _ 1); [lia | apply (Hu e eq_refl)].
    + unfold dispatch. rewrite Hm. apply (posts_at_most_bind _ _ 2 0).
      * apply (posts_at_most_try_except _ _ 1 1);
          [apply posts_at_most_run_method | intros e; apply posts_at_most_on_exception].
      * intros r. apply posts_at_most_finish.
  - intros name method Hm Hdirect. unfold dispatch. rewrite Hm.
    apply (posts_at_most_bind _ _ 1 0); [| intros r; apply posts_at_most_finish].
    apply (posts_at_most_try_except _ _ 0 1);
      [| intros e; apply posts_at_most_on_exception].
    unfold run_method.
    apply (posts_at_most_bind _ _ 0 0); [apply posts_at_most_emit; reflexivity | intros _].
    destruct (method method_params) as [v | e | c] eqn:Hr;
      [apply posts_at_most_ret | apply posts_at_most_raise |].
    exfalso. exact (Hdirect c eq_refl).
Qed.

Lemma posts_at_most_json_api_via env req n :
  (forall method_name method_params entity_type,
     posts_at_most n (dispatch env req method_name method_params entity_type)) ->
  posts_at_most n (json_api env req).
Proof.
  intros Hd s.
  assert (Hnil : forall s' : state, trace s' = trace s ->
            exists t, trace s' = trace s ++ t /\
                      (length (List.filter is_post t) <= n)%nat).
  { intros s' H. exists []. rewrite app_nil_r. split; [exact H | cbn; lia]. }
  unfold json_api, json_loads_M. rewrite bind_run.
  destruct (json_loads env (request_data req)) as [payload|]; cbn [ret raise];
    [| apply Hnil; reflexivity].
  rewrite bind_run. cbn [set_g_api3_payload].
  destruct (is_dict payload); cbn [negb]; [| apply Hnil; reflexivity].
  destruct (read_envelope payload) as [e | [[mn auth] mp]].
  { destruct e; apply Hnil; reflexivity. }
  rewrite bind_run.
  destruct (headline mn auth mp) as [e | [chunks et]]; cbn [lift raise ret];
    [apply Hnil; reflexivity |].
  rewrite bind_run. cbn [log_record].
  apply (Hd mn mp et (add_log (store_payload s payload) INFO (Headline chunks))).
Qed.

(** X23.  Whatever the request, [json_api] makes at most two
    upstream calls (a Two-Phase handler's call and a delegation), and at
    most one when no registered handler is a generator. *)
Theorem json_api_posts_at_most_twice env req :
  posts_at_most 2 (json_api env req) /\
  ((forall name method method_params c,
      _api3_methods env !! name = Some method -> method method_params <> HGenerator c) ->
   posts_at_most 1 (json_api env req)).
Proof.
  split.
  - apply posts_at_most_json_api_via. intros mn mp et.
    apply (posts_at_most_dispatch env req mn mp et).
  - intros Hdirect. apply posts_at_most_json_api_via. intros mn mp et.
    destruct (posts_at_most_dispatch env req mn mp et) as (_ & Hu & Hr).
    destruct (lookup_method env mn) as [e | [name method]] eqn:Hm.
    + apply (Hu e eq_refl).
    + apply (Hr name method eq_refl). intros c.
      apply (Hdirect name method mp c).
      unfold lookup_method in Hm. destruct mn as [| b | z | t | l | d | r];
        try discriminate Hm.
      destruct (_api3_methods env !! t) eqn:Ht; [| discriminate Hm].
      injection Hm as <- <-. exact Ht.
Qed.

(** X23 at work on a registry with one Direct handler. *)
Lemma json_api_posts_at_most_twice_witness :
  posts_at_most 1
    (json_api (api3_method (mkEnv json.loads json.dumps "https://shotgun.example.com"
                              (Scenario.upstream 200 [] "{}") ∅ false)
                           "read" Scenario.read)
              (Scenario.request "read" (PList [Scenario.auth_params; Scenario.method_params]))).
Proof.
  refine (proj2 (json_api_posts_at_most_twice _ _) _).
  intros name method method_params c. cbn [_api3_methods api3_method].
  rewrite lookup_insert. destruct (decide ("read" = name)) as [_ | _].
  - intros [= <-]. discriminate.
  - rewrite lookup_empty. discriminate.
Defined.

(** ** What the dispatcher never does *)

Lemma appends_resume_send (P : event -> Prop) c v :
  P (Resume (Send v)) -> appends P (resume c (Send v)).
Proof.
  intros H. unfold resume. apply appends_bind; [apply appends_emit, H | intros _].
  destruct c; [apply appends_raise | apply appends_raise | apply appends_ret |
               apply appends_ret].
Qed.

Lemma appends_extra_yields_send (P : event -> Prop) c :
  P (Resume (Send PNone)) -> appends P (extra_yields c).
Proof.
  intros H. induction c as [| e | x k IH | xs k IH]; cbn [extra_yields];
    (apply appends_bind; [apply appends_emit, H | intros _]).
  - apply appends_ret.
  - apply appends_raise.
  - apply appends_bind; [apply appends_same; reflexivity | intros _; apply IH].
  - destruct xs as [| x [| y xs]]; try apply appends_raise.
    apply appends_bind; [apply appends_same; reflexivity | intros _; apply IH].
Qed.

Lemma dispatch_never_throws env req method_name method_params entity_type :
  appends (fun e => is_throw e = false)
    (dispatch env req method_name method_params entity_type).
Proof.
  set (P := fun e => is_throw e = false).
  assert (Hpost : forall data stream, P (Post (upstream_post env req data stream)))
    by reflexivity.
  unfold dispatch. destruct (lookup_method env method_name) as [e | [name method]].
  - assert (Hp : appends P
                   (log_record INFO
                      (PassingThroughUnknown method_name (debug_detail env method_params)) ;;;
                    passthrough env req (payload_obj PNone) PNone true true false)).
    { apply appends_bind; [apply appends_same; reflexivity | intros _].
      apply appends_passthrough, Hpost. }
    destruct e; try apply appends_raise. exact Hp.
  - apply appends_bind; [| intros r; apply appends_finish].
    apply appends_try_except; [| intros e; apply appends_on_exception, Hpost].
    unfold run_method. apply appends_bind; [apply appends_emit; reflexivity | intros _].
    destruct (method method_params) as [v | e | c];
      [apply appends_ret | apply appends_raise |].
    apply appends_bind; [apply appends_resume_send; reflexivity |]. intros [x k].
    apply appends_try_except_else.
    + apply appends_passthrough, Hpost.
    + intros e. apply appends_raise.
    + intros v. apply appends_bind; [apply appends_resume_send; reflexivity |].
      intros [result k'].
      apply appends_bind;
        [apply appends_extra_yields_send; reflexivity | intros _; apply appends_ret].
Qed.

(** X24.  Line 176.  Whatever the request, [json_api] never calls
    [coroutine.throw]: generators are only ever resumed by [next] and
    [send]. *)
Theorem json_api_never_throws_into_a_handler env req :
  appends (fun e => is_throw e = false) (json_api env req).
Proof.
  intros s.
  assert (Hnil : forall s' : state, trace s' = trace s ->
            exists t, trace s' = trace s ++ t /\ Forall (fun e => is_throw e = false) t).
  { intros s' H. exists []. split; [rewrite app_nil_r; exact H | constructor]. }
  unfold json_api, json_loads_M. rewrite bind_run.
  destruct (json_loads env (request_data req)) as [payload|]; cbn [ret raise];
    [| apply Hnil; reflexivity].
  rewrite bind_run. cbn [set_g_api3_payload].
  destruct (is_dict payload); cbn [negb]; [| apply Hnil; reflexivity].
  destruct (read_envelope payload) as [e | [[mn auth] mp]].
  { destruct e; apply Hnil; reflexivity. }
  rewrite bind_run.
  destruct (headline mn auth mp) as [e | [chunks et]]; cbn [lift raise ret];
    [apply Hnil; reflexivity |].
  rewrite bind_run. cbn [log_record].
  apply (dispatch_never_throws env req mn mp et
           (add_log (store_payload s payload) INFO (Headline chunks))).
Qed.

(** ** The flag of the access log *)

Lemma keeps_skip_bind {A B} (c : M A) (k : A -> M B) :
  keeps_skip_http_log c -> (forall a, keeps_skip_http_log (k a)) ->
  keeps_skip_http_log (bind c k).
Proof.
  intros Hc Hk s. rewrite bind_run. specialize (Hc s).
  destruct (c s) as [[e | a] s1]; cbn [snd] in *; [exact Hc |].
  rewrite (Hk a s1). exact Hc.
Qed.

Lemma keeps_skip_try_except {A} (c : M A) (h : exn -> M A) :
  keeps_skip_http_log c -> (forall e, keeps_skip_http_log (h e)) ->
  keeps_skip_http_log (try_except c h).
Proof.
  intros Hc Hh s. unfold try_except. specialize (Hc s).
  destruct (c s) as [[e | a] s1]; cbn [snd] in *; [| exact Hc].
  rewrite (Hh e s1). exact Hc.
Qed.

Lemma keeps_skip_try_except_else {A B} (c : M A) (h : exn -> M B) (k : A -> M B) :
  keeps_skip_http_log c -> (forall e, keeps_skip_http_log (h e)) ->
  (forall a, keeps_skip_http_log (k a)) ->
  keeps_skip_http_log (try_except_else c h k).
Proof.
  intros Hc Hh Hk s. unfold try_except_else. specialize (Hc s).
  destruct (c s) as [[e | a] s1]; cbn [snd] in *.
  - rewrite (Hh e s1). exact Hc.
  - rewrite (Hk a s1). exact Hc.
Qed.

Lemma keeps_skip_same {A} (c : M A) :
  (forall s, skip_http_log (snd (c s)) = skip_http_log s) -> keeps_skip_http_log c.
Proof. intros H. exact H. Qed.

Lemma keeps_skip_passthrough env req payload params raise_exceptions stream final :
  keeps_skip_http_log (passthrough env req payload params raise_exceptions stream final).
Proof.
  intros s.
  destruct (passthrough_frame env req payload params raise_exceptions stream final s)
    as (_ & H & _). exact H.
Qed.

Lemma keeps_skip_resume c r : keeps_skip_http_log (resume c r).
Proof.
  unfold resume. apply keeps_skip_bind; [intros s; reflexivity | intros _].
  destruct c; intros s; reflexivity.
Qed.

Lemma keeps_skip_extra_yields c : keeps_skip_http_log (extra_yields c).
Proof.
  induction c as [| e | x k IH | xs k IH]; cbn [extra_yields];
    (apply keeps_skip_bind; [intros s; reflexivity | intros _]).
  - intros s; reflexivity.
  - intros s; reflexivity.
  - apply keeps_skip_bind; [intros s; reflexivity | intros _; apply IH].
  - destruct xs as [| x [| y xs]]; try (intros s; reflexivity).
    apply keeps_skip_bind; [intros s; reflexivity | intros _; apply IH].
Qed.

Lemma keeps_skip_run_method env req name method method_params :
  keeps_skip_http_log (run_method env req name method method_params).
Proof.
  unfold run_method. apply keeps_skip_bind; [intros s; reflexivity | intros _].
  destruct (method method_params) as [v | e | c]; try (intros s; reflexivity).
  apply keeps_skip_bind; [apply keeps_skip_resume |]. intros [x k].
  apply keeps_skip_try_except_else.
  - apply keeps_skip_passthrough.
  - intros e s. reflexivity.
  - intros v. apply keeps_skip_bind; [apply keeps_skip_resume |]. intros [result k'].
    apply keeps_skip_bind; [apply keeps_skip_extra_yields | intros _ s; reflexivity].
Qed.

Lemma keeps_skip_on_exception env req method_name method_params e :
  keeps_skip_http_log (on_exception env req method_name method_params e).
Proof.
  destruct e as [args | args | sg | | | | | | | n | c]; try (intros s; reflexivity).
  destruct sg as [cls code msg | cls msg]; cbn [on_exception].
  - intros s. reflexivity.
  - apply keeps_skip_bind; [intros s; reflexivity | intros _].
    apply keeps_skip_passthrough.
Qed.

Lemma finish_failure_keeps_skip env entity_type result s e s' :
  finish env entity_type result s = (inl e, s') -> skip_http_log s' = skip_http_log s.
Proof.
  unfold finish. rewrite bind_run.
  destruct (num_entities result) as [e1 | n]; cbn [lift raise ret];
    [intros [= _ <-]; reflexivity |].
  rewrite bind_run.
  assert (Hs : snd (normalise env result s) = s).
  { unfold normalise. rewrite bind_run.
    destruct (is_Response_or_starts_with_one result) as [e1 | []]; cbn [lift raise ret];
      try reflexivity.
    rewrite bind_run. unfold json_dumps_M. destruct (json_dumps env result); reflexivity. }
  destruct (normalise env result s) as [[e1 | r] s1]; cbn [snd] in Hs; subst s1;
    [intros [= _ <-]; reflexivity |].
  rewrite bind_run.
  destruct (returned_count n entity_type) as [e1 | c]; cbn [lift raise ret];
    [intros [= _ <-]; reflexivity |].
  cbn. discriminate.
Qed.

Lemma dispatch_failure_keeps_skip env req method_name method_params entity_type s e s' :
  dispatch env req method_name method_params entity_type s = (inl e, s') ->
  skip_http_log s' = skip_http_log s.
Proof.
  unfold dispatch. destruct (lookup_method env method_name) as [e1 | [name method]].
  - assert (Hp : keeps_skip_http_log
                   (log_record INFO
                      (PassingThroughUnknown method_name (debug_detail env method_params)) ;;;
                    passthrough env req (payload_obj PNone) PNone true true false)).
    { apply keeps_skip_bind; [intros s0; reflexivity | intros _].
      apply keeps_skip_passthrough. }
    intros H.
    assert (Hk : skip_http_log
                   (snd (match e1 with
                         | KeyError =>
                             log_record INFO
                               (PassingThroughUnknown method_name
                                  (debug_detail env method_params)) ;;;
                             passthrough env req (payload_obj PNone) PNone true true false
                         | _ => raise e1
                         end s)) = skip_http_log s).
    { destruct e1; try reflexivity. apply Hp. }
    rewrite H in Hk. exact Hk.
  - rewrite bind_run.
    pose proof (keeps_skip_try_except _ _
                  (keeps_skip_run_method env req name method method_params)
                  (keeps_skip_on_exception env req method_name method_params) s) as Ht.
    destruct (try_except _ _ s) as [[e1 | r] s1]; cbn [snd] in Ht.
    + intros [= _ <-]. exact Ht.
    + intros H. apply finish_failure_keeps_skip in H. congruence.
Qed.

(** X25.  Lines 222-227.  Whenever [json_api] raises, whatever the
    exception and wherever it comes from, [log_globals.skip_http_log] is
    as it was before the request: the flag is only set on the way to a
    returned response. *)
Theorem failed_request_keeps_access_log env req s e s' :
  json_api env req s = (inl e, s') -> skip_http_log s' = skip_http_log s.
Proof.
  unfold json_api, json_loads_M. rewrite bind_run.
  destruct (json_loads env (request_data req)) as [payload|]; cbn [ret raise];
    [| intros [= _ <-]; reflexivity].
  rewrite bind_run. cbn [set_g_api3_payload].
  destruct (is_dict payload); cbn [negb]; [| discriminate].
  destruct (read_envelope payload) as [e1 | [[mn auth] mp]].
  { destruct e1; cbn [raise ret]; try discriminate; intros [= _ <-]; reflexivity. }
  rewrite bind_run.
  destruct (headline mn auth mp) as [e1 | [chunks et]]; cbn [lift raise ret];
    [intros [= _ <-]; reflexivity |].
  rewrite bind_run. cbn [log_record].
  intros H. apply dispatch_failure_keeps_skip in H. exact H.
Qed.

(** X25 at work on the handler that raises a Fault. *)
Lemma failed_request_keeps_access_log_witness :
  let E := Scenario.env 200 Scenario.upstream_headers "{}" in
  let req := Scenario.request "delete" (PList [Scenario.auth_params; Scenario.method_params]) in
  skip_http_log (snd (json_api E req Scenario.idle)) = skip_http_log Scenario.idle.
Proof.
  intros E req.
  refine (failed_request_keeps_access_log E req Scenario.idle (NameError "res_data")
            (snd (json_api E req Scenario.idle)) _).
  vm_compute. reflexivity.
Defined.
